(** * SOCI backends: Firebird value marshalling and PostgreSQL session helpers

    A shallow embedding of

    - [src/backends/firebird/common.cpp]: [allocBuffer], [tmEncode],
      [tmDecode], [setTextParam], [getTextParam], [copy_from_blob];
    - [src/backends/postgresql/session.cpp]: [set_tcp_user_timeout],
      [hard_exec], [quote], [get_schema_names], [create_list_of_strings],
      [create_case_list_of_strings], [connect], [is_connected], [begin],
      [commit], [rollback], the two [deallocate] members, [clean_up] and
      [get_next_statement_name].

    C++ code that mutates memory through a pointer is a computation over the
    pointed-to bytes; a [throw] is the outcome [Throw]; behaviour the language
    leaves undefined (reading or writing outside an array, reading a local
    before it is assigned) is the outcome [Undefined].  Calls into the engine
    SDKs (the Firebird client, libpq, the socket layer) are members of type
    classes: the code is verified for every implementation of them. *)

From Stdlib Require Import ZArith List String Ascii Strings.Byte Bool Lia DecimalString.
From Stdlib Require DecimalFacts DecimalPos DecimalZ.
Import ListNotations.
Open Scope Z_scope.

(** ** Exceptions, outcomes and the state-and-exception monad *)

(** [soci::soci_error], identified by the text [what()] returns. *)
Inductive soci_error : Type :=
| mk_soci_error (what : string).

Inductive outcome (A : Type) : Type :=
| Done (a : A)
| Throw (e : soci_error)
| Undefined.
Arguments Done {A} a.
Arguments Throw {A} e.
Arguments Undefined {A}.

(** A computation over a mutable state [S]: the state is returned on every
    path, so that what a call wrote before it threw stays observable. *)
Definition M (S A : Type) : Type := S -> outcome A * S.

Definition ret {S A} (a : A) : M S A := fun s => (Done a, s).
Definition throw {S A} (msg : string) : M S A :=
  fun s => (Throw (mk_soci_error msg), s).
Definition undefined {S A} : M S A := fun s => (Undefined, s).
Definition bind {S A B} (c : M S A) (k : A -> M S B) : M S B :=
  fun s =>
    match c s with
    | (Done a, s') => k a s'
    | (Throw e, s') => (Throw e, s')
    | (Undefined, s') => (Undefined, s')
    end.

Notation "x <- c ;; k" := (bind c (fun x => k))
  (at level 61, c at next level, right associativity).
Notation "c ;;; k" := (bind c (fun _ => k))
  (at level 61, right associativity).

(** ** Bytes, machine integers and raw memory *)

Definition len {A} (l : list A) : Z := Z.of_nat (List.length l).

Definition Z_of_byte (b : byte) : Z := Z.of_N (Byte.to_N b).
Definition byte_of_Z (z : Z) : byte :=
  match Byte.of_N (Z.to_N (z mod 256)) with
  | Some b => b
  | None => x00
  end.

(** Little-endian object representation of an integer on [n] bytes. *)
Fixpoint le_bytes (n : nat) (z : Z) : list byte :=
  match n with
  | O => []
  | S k => byte_of_Z z :: le_bytes k (Z.shiftr z 8)
  end.

Fixpoint le_value (bs : list byte) : Z :=
  match bs with
  | [] => 0
  | b :: r => Z_of_byte b + 256 * le_value r
  end.

(** Conversions to a [bits]-wide unsigned or signed integer type. *)
Definition to_unsigned (bits z : Z) : Z := z mod 2 ^ bits.
Definition to_signed (bits z : Z) : Z :=
  let m := z mod 2 ^ bits in
  if m <? 2 ^ (bits - 1) then m else m - 2 ^ bits.

Definition take (n : Z) {A} (l : list A) : list A := firstn (Z.to_nat n) l.
Definition drop (n : Z) {A} (l : list A) : list A := skipn (Z.to_nat n) l.

(** [std::memcpy(buf + dst, src, n)] on the array [buf]. *)
Definition memcpy (dst : Z) (src : list byte) (n : Z) : M (list byte) unit :=
  fun buf =>
    if (0 <=? n) && (n <=? len src) && (0 <=? dst) && (dst + n <=? len buf)
    then (Done tt, take dst buf ++ take n src ++ drop (dst + n) buf)
    else (Undefined, buf).

(** [std::memset(buf + dst, c, n)]. *)
Definition memset (dst : Z) (c : byte) (n : Z) : M (list byte) unit :=
  fun buf =>
    if (0 <=? n) && (0 <=? dst) && (dst + n <=? len buf)
    then (Done tt, take dst buf ++ repeat c (Z.to_nat n) ++ drop (dst + n) buf)
    else (Undefined, buf).

(** The bytes a [char const*] designates as a C string: up to the first NUL. *)
Fixpoint c_str (s : list byte) : list byte :=
  match s with
  | [] => []
  | b :: r => if Byte.eqb b x00 then [] else b :: c_str r
  end.

(** [operator<<] of an integer: its decimal digits, with a sign if negative. *)
Definition dec (z : Z) : string := NilZero.string_of_int (Z.to_int z).

(** What the data model of the platform fixes: [sizeof(std::tm)], and the
    widths of [std::size_t] and of [unsigned long].  Throughout, [short] is
    16 bits and [int] 32 bits, two's complement and little-endian (x86). *)
Record abi : Type := {
  sizeof_tm : Z;
  size_t_bits : Z;
  ulong_bits : Z
}.

(** x86-64 Linux with glibc. *)
Definition lp64 : abi :=
  {| sizeof_tm := 56; size_t_bits := 64; ulong_bits := 64 |}.

(** 64-bit Windows with the Microsoft C runtime. *)
Definition llp64 : abi :=
  {| sizeof_tm := 36; size_t_bits := 64; ulong_bits := 32 |}.

Definition sizeof_short : Z := 2.

(** ** The C library's [sscanf], for the directives the backend uses

    [soci::sscanf] forwards to [sscanf].  A format is a sequence of [%hu]
    conversions, white space (which skips any amount of white space in the
    input, also none) and ordinary characters (which must match the next
    input character).  [sscanf] stops at the first directive that fails and
    returns how many conversions it stored; here it returns the stored
    values, in order, and the caller's comparison [!= 6] is a comparison of
    their number.  (At the end of the input before the first conversion C
    returns [EOF], which no caller here tells apart from 0.) *)

Inductive directive : Type :=
| Conv_hu
| Space
| Lit (c : ascii).

Definition isspace_ascii (c : ascii) : bool :=
  let n := Z.of_N (N_of_ascii c) in
  (n =? 32) || ((9 <=? n) && (n <=? 13)).

Fixpoint parse_format (fmt : string) : list directive :=
  match fmt with
  | EmptyString => []
  | String "%" (String "h" (String "u" rest)) => Conv_hu :: parse_format rest
  | String c rest =>
      (if isspace_ascii c then Space else Lit c) :: parse_format rest
  end.

Definition isspace (b : byte) : bool := isspace_ascii (ascii_of_byte b).
Definition isdigit (b : byte) : bool :=
  (48 <=? Z_of_byte b) && (Z_of_byte b <=? 57).

Fixpoint skip_space (l : list byte) : list byte :=
  match l with
  | [] => []
  | b :: r => if isspace b then skip_space r else l
  end.

Fixpoint read_digits (l : list byte) (acc : Z) : Z * list byte :=
  match l with
  | [] => (acc, [])
  | b :: r =>
      if isdigit b then read_digits r (10 * acc + (Z_of_byte b - 48))
      else (acc, l)
  end.

(** [strtoul] on a sign and a digit sequence of value [n]: clamps to
    [ULONG_MAX] when [n] is out of range, negates in [unsigned long]
    otherwise. *)
Definition strtoul_value (a : abi) (neg : bool) (n : Z) : Z :=
  if 2 ^ ulong_bits a <=? n then 2 ^ ulong_bits a - 1
  else if neg then to_unsigned (ulong_bits a) (- n)
  else n.

(** One [%hu]: skip white space, an optional sign, at least one digit; the
    value is stored into an [unsigned short]. *)
Definition scan_hu (a : abi) (l : list byte) : option (Z * list byte) :=
  let l1 := skip_space l in
  let '(neg, l2) :=
    match l1 with
    | b :: r =>
        if Byte.eqb b "-"%byte then (true, r)
        else if Byte.eqb b "+"%byte then (false, r)
        else (false, l1)
    | [] => (false, [])
    end in
  match l2 with
  | b :: _ =>
      if isdigit b then
        let '(n, rest) := read_digits l2 0 in
        Some (to_unsigned 16 (strtoul_value a neg n), rest)
      else None
  | [] => None
  end.

Fixpoint run_directives (a : abi) (input : list byte) (fmt : list directive)
  : list Z :=
  match fmt with
  | [] => []
  | Conv_hu :: f =>
      match scan_hu a input with
      | Some (v, rest) => v :: run_directives a rest f
      | None => []
      end
  | Space :: f => run_directives a (skip_space input) f
  | Lit c :: f =>
      match input with
      | b :: rest =>
          if Ascii.eqb (ascii_of_byte b) c then run_directives a rest f else []
      | [] => []
      end
  end.

Definition sscanf (a : abi) (s : list byte) (fmt : string) : list Z :=
  run_directives a (c_str s) (parse_format fmt).

Definition dquote : string := String "034"%char EmptyString.

(** * Firebird: [soci::details::firebird] of [backends/firebird/common.cpp] *)

Module firebird.

(** The type codes of [<ibase.h>]; bit 0 of [sqltype] is the nullable flag,
    which every function below masks off with [& ~1]. *)
Definition SQL_VARYING : Z := 448.
Definition SQL_TEXT : Z := 452.
Definition SQL_DOUBLE : Z := 480.
Definition SQL_FLOAT : Z := 482.
Definition SQL_LONG : Z := 496.
Definition SQL_SHORT : Z := 500.
Definition SQL_TIMESTAMP : Z := 510.
Definition SQL_BLOB : Z := 520.
Definition SQL_TYPE_TIME : Z := 560.
Definition SQL_TYPE_DATE : Z := 570.
Definition SQL_INT64 : Z := 580.

(** [sizeof(ISC_TIMESTAMP)], [sizeof(ISC_DATE)], [sizeof(ISC_TIME)] and
    [sizeof(ISC_QUAD)]: a timestamp is a 32-bit date and a 32-bit time. *)
Definition sizeof_ISC_TIMESTAMP : Z := 8.
Definition sizeof_ISC_DATE : Z := 4.
Definition sizeof_ISC_TIME : Z := 4.
Definition sizeof_ISC_QUAD : Z := 8.

(** The fields of [XSQLVAR] the functions read; [sqldata] is the array the
    pointer designates.  [sqltype], [sqlscale] and [sqllen] are [short]. *)
Record XSQLVAR : Type := {
  sqltype : Z;
  sqlscale : Z;
  sqllen : Z;
  sqldata : list byte
}.

(** [std::tm]; every field is an [int]. *)
Record tm : Type := {
  tm_sec : Z;
  tm_min : Z;
  tm_hour : Z;
  tm_mday : Z;
  tm_mon : Z;
  tm_year : Z;
  tm_wday : Z;
  tm_yday : Z;
  tm_isdst : Z
}.

(** [std::memset(&t, 0, sizeof(t))]. *)
Definition tm_zero : tm :=
  {| tm_sec := 0; tm_min := 0; tm_hour := 0; tm_mday := 0; tm_mon := 0;
     tm_year := 0; tm_wday := 0; tm_yday := 0; tm_isdst := 0 |}.

(** The object representation of a [std::tm] that was zeroed before its
    fields were assigned: nine [int]s, then zero bytes up to [sizeof(tm)]. *)
Definition tm_bytes (a : abi) (t : tm) : list byte :=
  le_bytes 4 (tm_sec t) ++ le_bytes 4 (tm_min t) ++ le_bytes 4 (tm_hour t)
  ++ le_bytes 4 (tm_mday t) ++ le_bytes 4 (tm_mon t) ++ le_bytes 4 (tm_year t)
  ++ le_bytes 4 (tm_wday t) ++ le_bytes 4 (tm_yday t)
  ++ le_bytes 4 (tm_isdst t) ++ repeat x00 (Z.to_nat (sizeof_tm a - 36)).

(** The Firebird client library: the packed date and time encodings.  An
    [ISC_TIMESTAMP] is the pair of an [ISC_DATE] and an [ISC_TIME]; the
    decoders fill the [std::tm] they are given. *)
Class ibase : Type := {
  isc_encode_timestamp : tm -> Z * Z;
  isc_encode_sql_time : tm -> Z;
  isc_encode_sql_date : tm -> Z;
  isc_decode_timestamp : Z * Z -> tm -> tm;
  isc_decode_sql_time : Z -> tm -> tm;
  isc_decode_sql_date : Z -> tm -> tm
}.

(** The decimal codec of [firebird/common.h], which [setTextParam] and
    [getTextParam] delegate to for the integer columns: the width of the
    integer type in bits is the template argument. *)
Class common_h : Type := {
  parse_decimal : Z -> XSQLVAR -> list byte -> M (list byte) unit;
  format_decimal : Z -> list byte -> Z -> outcome (list byte)
}.

(** [firebird_blob_backend], of [backends/firebird/blob.cpp], as far as
    [copy_from_blob] uses it.  [read_from_start toRead] yields the bytes it
    copies to the destination; their number is what the C++ returns. *)
Class blob_backend : Type := {
  session : Type;
  blob : Type;
  blob_ctor : session -> blob;
  assign : list byte -> M blob unit;
  get_len : M blob Z;
  read_from_start : Z -> M blob (list byte)
}.

Section Common.
Context (a : abi) {IB : ibase} {CH : common_h}.

(** The [size] that [allocBuffer] passes to [new char[size]]. *)
Definition allocBuffer_size (var : XSQLVAR) : Z :=
  let type := Z.land (sqltype var) (Z.lnot 1) in
  if type =? SQL_VARYING then
    to_unsigned (size_t_bits a) (sqllen var + sizeof_short)
  else if (type =? SQL_TIMESTAMP) || (type =? SQL_TYPE_TIME)
          || (type =? SQL_TYPE_DATE) then
    sizeof_tm a
  else
    to_unsigned (size_t_bits a) (sqllen var).

(** [new char[size]] yields [size] bytes of indeterminate value: [heap] gives
    what the allocator happens to return. *)
Definition allocBuffer (heap : nat -> byte) (var : XSQLVAR) : list byte :=
  map heap (seq 0 (Z.to_nat (allocBuffer_size var))).

Definition unexpected_date_time (type : Z) : string :=
  ("Unexpected type of date/time field (" ++ dec type ++ ")")%string.

(** The state is the array [dst] points to. *)
Definition tmEncode (type : Z) (src : tm) : M (list byte) unit :=
  let t := Z.land type (Z.lnot 1) in
  if t =? SQL_TIMESTAMP then
    let '(date, time) := isc_encode_timestamp src in
    memcpy 0 (le_bytes 4 date ++ le_bytes 4 time) sizeof_ISC_TIMESTAMP
  else if t =? SQL_TYPE_TIME then
    memcpy 0 (le_bytes 4 (isc_encode_sql_time src)) sizeof_ISC_TIME
  else if t =? SQL_TYPE_DATE then
    memcpy 0 (le_bytes 4 (isc_encode_sql_date src)) sizeof_ISC_DATE
  else
    throw (unexpected_date_time type).

(** The state is the [std::tm] that [dst] points to; [src] is the array read. *)
Definition tmDecode (type : Z) (src : list byte) : M tm unit :=
  let t := Z.land type (Z.lnot 1) in
  if t =? SQL_TIMESTAMP then
    if sizeof_ISC_TIMESTAMP <=? len src then
      fun dst =>
        (Done tt,
         isc_decode_timestamp
           (to_signed 32 (le_value (take 4 src)),
            le_value (take 4 (drop 4 src))) dst)
    else undefined
  else if t =? SQL_TYPE_TIME then
    if sizeof_ISC_TIME <=? len src then
      fun dst => (Done tt, isc_decode_sql_time (le_value (take 4 src)) dst)
    else undefined
  else if t =? SQL_TYPE_DATE then
    if sizeof_ISC_DATE <=? len src then
      fun dst =>
        (Done tt, isc_decode_sql_date (to_signed 32 (le_value (take 4 src))) dst)
    else undefined
  else
    throw (unexpected_date_time type).


(** The locals [year], [month], [day], [hour], [min], [sec] of
    [setTextParam]: [None] until something is stored into them. *)
Inductive local : Type := year | month | day | hour | min | sec.

Definition local_eqb (x y : local) : bool :=
  match x, y with
  | year, year | month, month | day, day
  | hour, hour | min, min | sec, sec => true
  | _, _ => false
  end.

Definition locals : Type := local -> option Z.
Definition uninitialised : locals := fun _ => None.
Definition store (x : local) (v : Z) (l : locals) : locals :=
  fun y => if local_eqb x y then Some v else l y.

(** What [sscanf] does with its pointer arguments: the i-th value it
    converted goes to the i-th pointer. *)
Fixpoint store_all (ptrs : list local) (vals : list Z) (l : locals) : locals :=
  match ptrs, vals with
  | p :: ps, v :: vs => store_all ps vs (store p v l)
  | _, _ => l
  end.

(** Reading a local; reading one that was never assigned is undefined. *)
Definition load {S} (l : locals) (x : local) : M S Z :=
  match l x with
  | Some v => ret v
  | None => undefined
  end.

Definition too_long (s : list byte) (size : Z) (var : XSQLVAR) : string :=
  ("Value " ++ dquote ++ string_of_list_byte (c_str s) ++ dquote
   ++ " is too long (" ++ dec size
   ++ " bytes) to be stored in column of size " ++ dec (sqllen var)
   ++ " bytes")%string.

(** [std::memcpy(buf_, &t, sizeof(t)); tmEncode(var->sqltype, &t, buf_);] *)
Definition put_tm (t : tm) (var : XSQLVAR) : M (list byte) unit :=
  memcpy 0 (tm_bytes a t) (sizeof_tm a) ;;;
  tmEncode (sqltype var) t.

(** The state is the array [buf_] points to.  [s] is the array [s] points to,
    without the NUL that ends it (the callers pass [c_str()] and [size()] of a
    [std::string]); [size] is a [std::size_t]. *)
Definition setTextParam (s : list byte) (size : Z) (var : XSQLVAR)
  : M (list byte) unit :=
  let sqltype := Z.land (sqltype var) (Z.lnot 1) in
  if (sqltype =? SQL_VARYING) || (sqltype =? SQL_TEXT) then
    if size >? to_unsigned (size_t_bits a) (sqllen var) then
      throw (too_long s size var)
    else
      let sz := to_signed 16 size in
      if sqltype =? SQL_VARYING then
        memcpy 0 (le_bytes 2 sz) sizeof_short ;;;
        memcpy sizeof_short (s ++ [x00]) sz
      else
        memcpy 0 (s ++ [x00]) sz ;;;
        if sz <? sqllen var then memset sz " "%byte (sqllen var - sz)
        else ret tt
  else if sqltype =? SQL_SHORT then
    parse_decimal 16 var s
  else if sqltype =? SQL_LONG then
    parse_decimal 32 var s
  else if sqltype =? SQL_INT64 then
    parse_decimal 64 var s
  else if (sqltype =? SQL_TIMESTAMP) || (sqltype =? SQL_TYPE_DATE) then
    let all := [year; month; day; hour; min; sec] in
    let l0 := uninitialised in
    let r1 := sscanf a s "%hu-%hu-%hu %hu:%hu:%hu" in
    let l1 := store_all all r1 l0 in
    l <- (if negb (len r1 =? 6) then
            let r2 := sscanf a s "%hu-%hu-%huT%hu:%hu:%hu" in
            let l2 := store_all all r2 l1 in
            if negb (len r2 =? 6) then
              let l3 := store hour 0 (store min 0 (store sec 0 l2)) in
              let r3 := sscanf a s "%hu-%hu-%hu" in
              let l4 := store_all [year; month; day] r3 l3 in
              if negb (len r3 =? 3) then
                throw "Could not parse timestamp value."
              else ret l4
            else ret l2
          else ret l1) ;;
    vyear <- load l year ;;
    vmonth <- load l month ;;
    vday <- load l day ;;
    vhour <- load l hour ;;
    vmin <- load l min ;;
    vsec <- load l sec ;;
    let t :=
      {| tm_sec := vsec; tm_min := vmin; tm_hour := vhour; tm_mday := vday;
         tm_mon := vmonth - 1; tm_year := vyear - 1900;
         tm_wday := 0; tm_yday := 0; tm_isdst := 0 |} in
    put_tm t var
  else if sqltype =? SQL_TYPE_TIME then
    let r := sscanf a s "%hu:%hu:%hu" in
    let l := store_all [hour; min; sec] r uninitialised in
    (if negb (len r =? 3) then throw "Could not parse timestamp value."
     else ret tt) ;;;
    vhour <- load l hour ;;
    vmin <- load l min ;;
    vsec <- load l sec ;;
    let t :=
      {| tm_sec := vsec; tm_min := vmin; tm_hour := vhour; tm_mday := 0;
         tm_mon := 0; tm_year := 0;
         tm_wday := 0; tm_yday := 0; tm_isdst := 0 |} in
    put_tm t var
  else
    throw "Unexpected string type.".

(** [std::string(p + offset, size)] on the array [p] points to, with [size]
    a [short] converted to [std::size_t]. *)
Definition std_string (p : list byte) (offset size : Z) : outcome (list byte) :=
  if (0 <=? size) && (offset + size <=? len p)
  then Done (take size (drop offset p))
  else Undefined.

Definition getTextParam (var : XSQLVAR) : outcome (list byte) :=
  let t := Z.land (sqltype var) (Z.lnot 1) in
  if t =? SQL_VARYING then
    if sizeof_short <=? len (sqldata var) then
      let size := to_signed 16 (le_value (take sizeof_short (sqldata var))) in
      std_string (sqldata var) sizeof_short size
    else Undefined
  else if t =? SQL_TEXT then
    std_string (sqldata var) 0 (sqllen var)
  else if t =? SQL_SHORT then
    format_decimal 16 (sqldata var) (sqlscale var)
  else if t =? SQL_LONG then
    format_decimal 32 (sqldata var) (sqlscale var)
  else if t =? SQL_INT64 then
    format_decimal 64 (sqldata var) (sqlscale var)
  else
    Throw (mk_soci_error "Unexpected string type").

End Common.

Section Blob.
Context {BB : blob_backend}.

(** [out.resize(n)]: cut, or extend with NUL characters. *)
Definition resize (n : Z) (out : list byte) : list byte :=
  take n out ++ repeat x00 (Z.to_nat (n - len out)).

Definition short_read (len_read len_total : Z) : string :=
  ("Read " ++ dec len_read ++ " bytes instead of expected " ++ dec len_total
   ++ " from Firebird text blob object")%string.

(** A member call on the local [blob], in a state that also holds [out]. *)
Definition on_blob {A} (c : M blob A) : M (blob * list byte) A :=
  fun s =>
    let '(r, b) := c (fst s) in (r, (b, snd s)).

Definition on_out {A} (c : M (list byte) A) : M (blob * list byte) A :=
  fun s =>
    let '(r, o) := c (snd s) in (r, (fst s, o)).

(** The state is the local [blob] and the string [out] refers to; [buf] is
    the array holding the [ISC_QUAD] blob id. *)
Definition copy_from_blob_body (buf : list byte)
  : M (blob * list byte) unit :=
  (if sizeof_ISC_QUAD <=? len buf then ret tt else undefined) ;;;
  on_blob (assign (take sizeof_ISC_QUAD buf)) ;;;
  len_total <- on_blob get_len ;;
  on_out (fun out => (Done tt, resize len_total out)) ;;;
  data <- on_blob (read_from_start len_total) ;;
  on_out (memcpy 0 data (len data)) ;;;
  let len_read := len data in
  if negb (len_read =? len_total) then throw (short_read len_read len_total)
  else ret tt.

(** [st.session_] is all the function uses of [st]; the state is [out]. *)
Definition copy_from_blob (st_session : session) (buf : list byte)
  : M (list byte) unit :=
  fun out =>
    let '(r, s) := copy_from_blob_body buf (blob_ctor st_session, out) in
    (r, snd s).

End Blob.
End firebird.

(** * PostgreSQL: [backends/postgresql/session.cpp] *)

Module postgresql.

(** ** The socket option [tcp_user_timeout] *)

(** The three ways the preprocessor builds [set_tcp_user_timeout]. *)
Inductive build : Type :=
| WIN32
| HAVE_TCP_USER_TIMEOUT
| NEITHER.

Definition IPPROTO_TCP : Z := 6.
Definition TCP_MAXRT : Z := 5.
Definition TCP_USER_TIMEOUT : Z := 18.
Definition AF_UNIX : Z := 1.
Definition INT_MAX : Z := 2147483647.
Definition MS_PER_SEC : Z := 1000.

(** The socket layer.  [getsockname] yields its return code and the address
    family it stored; [setsockopt] takes the socket, the level, the option
    and the value, and yields its return code. *)
Class sockets : Type := {
  os : Type;
  getsockname : Z -> os -> (Z * Z) * os;
  setsockopt : Z -> Z -> Z -> Z -> os -> Z * os;
  strerror_errno : os -> string;
  WSAGetLastError : os -> Z
}.

(** [cstring_to_integer] of [soci-cstrtoi.h], at type [int]: [None] is its
    result [false], [Some n] its result [true] with [n] stored. *)
Class cstrtoi_h : Type := {
  cstring_to_integer : string -> option Z
}.

Inductive syscall : Type :=
| Getsockname (sock : Z)
| Setsockopt (sock level optname value : Z).

Section Timeout.
Context {SK : sockets} {CI : cstrtoi_h}.

(** The operating system, and the calls made to it so far, oldest first. *)
Record net : Type := {
  net_os : os;
  net_calls : list syscall
}.

Definition call_getsockname (sock : Z) : M net (Z * Z) :=
  fun n =>
    let '(r, o) := getsockname sock (net_os n) in
    (Done r, {| net_os := o; net_calls := net_calls n ++ [Getsockname sock] |}).

Definition call_setsockopt (sock level optname value : Z) : M net Z :=
  fun n =>
    let '(rc, o) := setsockopt sock level optname value (net_os n) in
    (Done rc,
     {| net_os := o;
        net_calls := net_calls n ++ [Setsockopt sock level optname value] |}).

Definition invalid_timeout (timeoutStr : string) : string :=
  ("Invalid value for tcp_user_timeout connection option: " ++ dquote
   ++ timeoutStr ++ dquote ++ ".")%string.

Definition set_tcp_user_timeout (b : build) (sock : Z) (timeoutStr : string)
  : M net unit :=
  match cstring_to_integer timeoutStr with
  | None => throw (invalid_timeout timeoutStr)
  | Some timeoutMs =>
      if timeoutMs =? 0 then ret tt
      else if timeoutMs <? 0 then ret tt
      else
        match b with
        | WIN32 =>
            if timeoutMs + MS_PER_SEC / 2 >? INT_MAX then undefined
            else
              let timeoutSec := (timeoutMs + MS_PER_SEC / 2) / MS_PER_SEC in
              let timeoutSec := if timeoutSec =? 0 then 1 else timeoutSec in
              rc <- call_setsockopt sock IPPROTO_TCP TCP_MAXRT timeoutSec ;;
              if negb (rc =? 0) then
                fun n =>
                  throw ("Failed to set TCP_MAXRT option on the socket: "
                         ++ "WinSock error " ++ dec (WSAGetLastError (net_os n))
                         ++ ".")%string n
              else ret tt
        | HAVE_TCP_USER_TIMEOUT =>
            r <- call_getsockname sock ;;
            if negb (fst r =? 0) then
              fun n =>
                throw ("Failed to get socket address: "
                       ++ strerror_errno (net_os n) ++ ".")%string n
            else if snd r =? AF_UNIX then ret tt
            else
              rc <- call_setsockopt sock IPPROTO_TCP TCP_USER_TIMEOUT
                      timeoutMs ;;
              if negb (rc =? 0) then
                fun n =>
                  throw ("Failed to set TCP_USER_TIMEOUT option on the "
                         ++ "socket: " ++ strerror_errno (net_os n)
                         ++ ".")%string n
              else ret tt
        | NEITHER => ret tt
        end
  end.

End Timeout.

(** ** Commands sent over the connection *)

Definition CONNECTION_OK : Z := 0.

(** libpq, and [postgresql_result::check_for_data] of the backend's
    [error.cpp].  [PGconn] is what a [PGconn*] designates: the connection as
    the client library holds it, which a command may change. *)
Class libpq : Type := {
  PGconn : Type;
  PGresult : Type;
  PQstatus : PGconn -> Z;
  PQexec : string -> PGconn -> PGresult * PGconn;
  PQntuples : PGresult -> Z;
  PQgetvalue : PGresult -> Z -> Z -> string;
  PQescapeStringConn : PGconn -> string -> string * Z;
  check_for_data : PGresult -> string -> outcome bool
}.

Section Session.
Context {PQ : libpq}.

(** The connection, and the commands sent over it so far, oldest first. *)
Record link : Type := {
  conn : PGconn;
  sent : list string
}.

Definition exec (query : string) : M link PGresult :=
  fun l =>
    let '(r, c) := PQexec query (conn l) in
    (Done r, {| conn := c; sent := sent l ++ [query] |}).

Definition status : M link Z :=
  fun l => (Done (PQstatus (conn l)), l).

Definition checked {S} (r : outcome bool) : M S bool :=
  fun s => (r, s).

(** [quote]: the text escaped by the library between apostrophes, or nothing
    between them when the library reports an error. *)
Definition quote (c : PGconn) (s : string) : string :=
  let '(escaped, error_code) := PQescapeStringConn c s in
  let escaped := if error_code >? 0 then EmptyString else escaped in
  ("'" ++ escaped ++ "'")%string.

(** The default search path, [R"("$user", public)"]. *)
Definition default_search_path : string :=
  (dquote ++ "$user" ++ dquote ++ ", public")%string.

(** The loop that consumes [search_path_content] one character at a time;
    its state is [quoted], [schema] and [schema_names]. *)
Fixpoint tokenize (search_path_content : string) (quoted : bool)
    (schema : string) (schema_names : list string)
  : bool * string * list string :=
  match search_path_content with
  | EmptyString => (quoted, schema, schema_names)
  | String c rest =>
      if Ascii.eqb c "034" then
        tokenize rest (negb quoted) schema schema_names
      else if (Ascii.eqb c "," || Ascii.eqb c " ") && negb quoted then
        if Ascii.eqb c "," then
          tokenize rest quoted EmptyString (schema_names ++ [schema])
        else
          tokenize rest quoted schema schema_names
      else
        tokenize rest quoted (schema ++ String c EmptyString) schema_names
  end.

(** The loop, and the [push_back] of a last non-empty [schema] after it. *)
Definition split_search_path (search_path_content : string) : list string :=
  let '(_, schema, schema_names) :=
    tokenize search_path_content false EmptyString [] in
  if negb (String.eqb schema EmptyString) then schema_names ++ [schema]
  else schema_names.

(** The body of the range-[for] loop, for one [schema_name]. *)
Definition resolve (schema_name : string) : M link string :=
  schema_name <-
    (if String.eqb schema_name "$user" then
       current_user_result <- exec "SELECT current_user" ;;
       has_data <- checked (check_for_data current_user_result
                              "current_user is not defined") ;;
       if has_data && (PQntuples current_user_result >? 0)
       then ret (PQgetvalue current_user_result 0 0)
       else ret schema_name
     else ret schema_name) ;;
  fun l => (Done (quote (conn l) schema_name), l).

Fixpoint resolve_all (schema_names : list string) : M link (list string) :=
  match schema_names with
  | [] => ret []
  | n :: ns =>
      n' <- resolve n ;;
      ns' <- resolve_all ns ;;
      ret (n' :: ns')
  end.

Definition get_schema_names : M link (list string) :=
  search_path_result <- exec "SHOW search_path" ;;
  has_data <- checked (check_for_data search_path_result
                         "search_path doesn't exist") ;;
  if has_data then
    let search_path_content :=
      if PQntuples search_path_result >? 0
      then PQgetvalue search_path_result 0 0
      else EmptyString in
    let search_path_content :=
      if String.eqb search_path_content EmptyString then default_search_path
      else search_path_content in
    resolve_all (split_search_path search_path_content)
  else ret [].

(** [postgresql_session_backend::is_connected]; the state is [conn_]. *)
Definition is_connected : M link bool :=
  st <- status ;;
  if negb (st =? CONNECTION_OK) then ret false
  else
    exec "/* ping */" ;;;
    st <- status ;;
    ret (st =? CONNECTION_OK).

End Session.
(** ** Lists of names in generated SQL *)

(** [create_list_of_strings]: the loop carries the stream and [first]. *)
Definition create_list_of_strings (strings : list string) : string :=
  fst (fold_left
         (fun (st : string * bool) (s : string) =>
            let '(oss, first) := st in
            ((if first then oss else oss ++ ", ") ++ s, false)%string)
         strings (EmptyString, true)).

(** [create_case_list_of_strings]: the loop runs over the indices. *)
Definition create_case_list_of_strings (list : list string) : string :=
  fold_left
    (fun (oss : string) (i : nat) =>
       (oss ++ " WHEN " ++ nth i list EmptyString ++ " THEN "
        ++ dec (Z.of_nat i))%string)
    (seq 0 (List.length list)) EmptyString.

(** ** Transactions and prepared statements *)

(** [postgresql_result::check_for_errors] of the backend's [error.cpp]. *)
Class result_checks {PQ : libpq} : Type := {
  check_for_errors : PGresult -> string -> outcome unit
}.

(** What [std::string::c_str] shows to a C function: up to the first NUL. *)
Fixpoint c_string (s : string) : string :=
  match s with
  | EmptyString => EmptyString
  | String c rest =>
      if Ascii.eqb c "000" then EmptyString else String c (c_string rest)
  end.

Section Transactions.
Context {PQ : libpq} {RC : result_checks}.

Definition hard_exec (query errMsg : string) : M link unit :=
  r <- exec query ;;
  fun l => (check_for_errors r errMsg, l).

Definition begin : M link unit :=
  hard_exec "BEGIN" "Cannot begin transaction.".

Definition commit : M link unit :=
  hard_exec "COMMIT" "Cannot commit transaction.".

Definition rollback : M link unit :=
  hard_exec "ROLLBACK" "Cannot rollback transaction.".

(** The member [deallocatePreparedStatements_] is the first argument. *)
Definition deallocate_prepared_statement
    (deallocatePreparedStatements_ : bool) (statementName : string)
  : M link unit :=
  if negb deallocatePreparedStatements_ then ret tt
  else
    let query := ("DEALLOCATE " ++ statementName)%string in
    hard_exec (c_string query) "Cannot deallocate prepared statement.".

Definition deallocate_all_prepared_statements : M link unit :=
  hard_exec "DEALLOCATE ALL" "Cannot deallocate all prepared statements.".

End Transactions.

(** ** Statement names and shutdown *)

(** [snprintf(nameBuf, size, "st_%d", n)] and the conversion of [nameBuf]
    to a [std::string]: at most [size - 1] characters are stored. *)
Definition snprintf_st (size : Z) (n : Z) : string :=
  substring 0 (Z.to_nat (size - 1)) ("st_" ++ dec n).

(** The state is the member [statementCount_], an [int]; incrementing it
    past [INT_MAX] is undefined. *)
Definition get_next_statement_name : M Z string :=
  fun statementCount_ =>
    if statementCount_ + 1 >? INT_MAX then (Undefined, statementCount_)
    else
      let statementCount_ := statementCount_ + 1 in
      (Done (snprintf_st 20 statementCount_), statementCount_).

(** What [clean_up] gives back to the libraries. *)
Inductive release (Conn File : Type) : Type :=
| Finished (c : Conn)
| Closed (f : File).
Arguments Finished {Conn File} c.
Arguments Closed {Conn File} f.

Section CleanUp.
Context {PQ : libpq} {FILE : Type}.

(** The members [conn_] and [traceFile_], null or not, and the calls to
    [PQfinish] and [fclose] made so far, oldest first. *)
Record handles : Type := {
  conn_ : option PGconn;
  traceFile_ : option FILE;
  released : list (release PGconn FILE)
}.

Definition clean_up (h : handles) : handles :=
  let h :=
    match conn_ h with
    | Some c =>
        {| conn_ := None; traceFile_ := traceFile_ h;
           released := released h ++ [Finished c] |}
    | None => h
    end in
  match traceFile_ h with
  | Some f =>
      {| conn_ := conn_ h; traceFile_ := None;
         released := released h ++ [Closed f] |}
  | None => h
  end.

End CleanUp.

(** ** Connecting *)

(** [soci::connection_parameters], of the core library, as far as [connect]
    uses it.  [extract_option] yields the value when the option is present,
    and the parameters without the option. *)
Class connection_parameters_h : Type := {
  connection_parameters : Type;
  extract_options_from_space_separated_string :
    connection_parameters -> outcome connection_parameters;
  extract_option :
    string -> connection_parameters -> option string * connection_parameters;
  is_true_value : string -> string -> outcome bool;
  build_string_from_options : ascii -> connection_parameters -> string;
  option_reconnect : string
}.

(** The rest of libpq that [connect] calls, and [fopen].  [PQconnectdb] and
    [fopen] yield [None] for a null pointer. *)
Class client_library {PQ : libpq} (FILE : Type) : Type := {
  PQlibVersion : Z;
  PQconnectdb : string -> option PGconn;
  PQerrorMessage : PGconn -> string;
  PQtrace : PGconn -> FILE -> PGconn;
  PQsocket : PGconn -> Z;
  PQserverVersion : PGconn -> Z;
  fopen : string -> string -> option FILE
}.

Section Connect.
Context {PQ : libpq} {RC : result_checks} {SK : sockets} {CI : cstrtoi_h}
        {CP : connection_parameters_h} {FILE : Type}
        {CL : client_library FILE}.

(** The session backend and what surrounds it: its members, the operating
    system, the connections [PQconnectdb] has opened (with the text each
    was asked for) and the commands sent, oldest first. *)
Record world : Type := {
  members : handles (FILE := FILE);
  single_row_mode_ : bool;
  connectionParameters_ : connection_parameters;
  network : net;
  opened : list (string * PGconn);
  commands : list string
}.

Definition with_members (h : handles (FILE := FILE)) (w : world) : world :=
  {| members := h; single_row_mode_ := single_row_mode_ w;
     connectionParameters_ := connectionParameters_ w;
     network := network w; opened := opened w; commands := commands w |}.

Definition set_single_row_mode (b : bool) : M world unit :=
  fun w =>
    (Done tt,
     {| members := members w; single_row_mode_ := b;
        connectionParameters_ := connectionParameters_ w;
        network := network w; opened := opened w; commands := commands w |}).

Definition set_traceFile (f : option FILE) : M world unit :=
  fun w =>
    (Done tt,
     with_members
       {| conn_ := conn_ (members w); traceFile_ := f;
          released := released (members w) |} w).

Definition note_opened (conninfo : string) (c : option PGconn)
  : M world unit :=
  fun w =>
    (Done tt,
     {| members := members w; single_row_mode_ := single_row_mode_ w;
        connectionParameters_ := connectionParameters_ w;
        network := network w;
        opened := match c with
                  | Some c => opened w ++ [(conninfo, c)]
                  | None => opened w
                  end;
        commands := commands w |}).

(** [PQfinish(conn)], as the deleter of [connPtr] calls it. *)
Definition finish (c : PGconn) (w : world) : world :=
  with_members
    {| conn_ := conn_ (members w); traceFile_ := traceFile_ (members w);
       released := released (members w) ++ [Finished c] |} w.

(** [conn_ = connPtr.release(); connectionParameters_ = parameters;] *)
Definition adopt (c : PGconn) (parameters : connection_parameters)
    (w : world) : world :=
  {| members := {| conn_ := Some c; traceFile_ := traceFile_ (members w);
                   released := released (members w) |};
     single_row_mode_ := single_row_mode_ w;
     connectionParameters_ := parameters;
     network := network w; opened := opened w; commands := commands w |}.

Definition on_network {A} (c : M net A) : M world A :=
  fun w =>
    let '(r, n) := c (network w) in
    (r,
     {| members := members w; single_row_mode_ := single_row_mode_ w;
        connectionParameters_ := connectionParameters_ w;
        network := n; opened := opened w; commands := commands w |}).

(** [hard_exec] on the local [conn], which it may change. *)
Definition on_conn {A} (c : PGconn) (m : M link A)
  : world -> outcome A * PGconn * world :=
  fun w =>
    let '(r, l) := m {| conn := c; sent := commands w |} in
    (r, conn l,
     {| members := members w; single_row_mode_ := single_row_mode_ w;
        connectionParameters_ := connectionParameters_ w;
        network := network w; opened := opened w; commands := sent l |}).

Definition lift_outcome {S A} (r : outcome A) : M S A := fun s => (r, s).

Definition newline : string := String "010"%char EmptyString.

(** Whether the backend takes [tcp_user_timeout] out of the options itself:
    always under Windows or without [PQlibVersion], otherwise when libpq is
    older than version 12. *)
Definition takes_timeout (b : build) (no_libversion : bool) : bool :=
  match b with
  | WIN32 => true
  | _ => no_libversion || (PQlibVersion <? 120000)
  end.

Definition connect (b : build) (no_libversion : bool)
    (parameters : connection_parameters) : M world unit :=
  params <- lift_outcome
              (extract_options_from_space_separated_string parameters) ;;
  let value := EmptyString in
  let '(found, params) := extract_option option_reconnect params in
  let value := match found with Some v => v | None => value end in
  let '(found, params) := extract_option "singlerow" params in
  let value := match found with Some v => v | None => value end in
  let '(name, value, params) :=
    match found with
    | Some _ => (Some "singlerow"%string, value, params)
    | None =>
        let '(found, params) := extract_option "singlerows" params in
        match found with
        | Some v => (Some "singlerows"%string, v, params)
        | None => (None, value, params)
        end
    end in
  match name with
  | Some name =>
      mode <- lift_outcome (is_true_value name value) ;;
      set_single_row_mode mode
  | None => ret tt
  end ;;;
  let '(found, params) := extract_option "tracefile" params in
  let value := match found with Some v => v | None => value end in
  match found, value with
  | Some _, String front rest =>
      let '(mode, value) :=
        if Ascii.eqb front "+" then ("a"%string, rest)
        else ("w"%string, value) in
      let file := fopen (c_string value) mode in
      set_traceFile file ;;;
      match file with
      | None =>
          throw ("Cannot open database trace file: " ++ dquote ++ value
                 ++ dquote ++ ".")%string
      | Some _ => ret tt
      end
  | _, _ => ret tt
  end ;;;
  let '(timeoutStr, params) :=
    if takes_timeout b no_libversion then
      let '(found, params) := extract_option "tcp_user_timeout" params in
      (match found with Some v => v | None => EmptyString end, params)
    else (EmptyString, params) in
  let conninfo := c_string (build_string_from_options "'" params) in
  let conn := PQconnectdb conninfo in
  note_opened conninfo conn ;;;
  match conn with
  | None => throw "Cannot establish connection to the database."
  | Some conn =>
      if negb (PQstatus conn =? CONNECTION_OK) then
        fun w =>
          (Throw (mk_soci_error
                    ("Cannot establish connection to the database."
                     ++ newline ++ PQerrorMessage conn)%string),
           finish conn w)
      else
        fun w =>
          let conn :=
            match traceFile_ (members w) with
            | Some f => PQtrace conn f
            | None => conn
            end in
          let '(r, w) :=
            (if negb (String.eqb timeoutStr EmptyString) then
               on_network (set_tcp_user_timeout b (PQsocket conn) timeoutStr)
             else ret tt) w in
          match r with
          | Throw e => (Throw e, finish conn w)
          | Undefined => (Undefined, w)
          | Done _ =>
              let version := PQserverVersion conn in
              if version <? 120000 then
                let '(r, conn, w) :=
                  on_conn conn
                    (hard_exec
                       (if version >=? 90000
                        then "SET extra_float_digits = 3"
                        else "SET extra_float_digits = 2")
                       "Cannot set extra_float_digits parameter") w in
                match r with
                | Throw e => (Throw e, finish conn w)
                | Undefined => (Undefined, w)
                | Done _ => (Done tt, adopt conn parameters w)
                end
              else (Done tt, adopt conn parameters w)
          end
  end.

End Connect.

End postgresql.

(** * Vocabulary of the statements *)

Module spec.
Import firebird postgresql.

(** The column's wire type: [sqltype] with the nullable flag masked off. *)
Definition wire_type (var : XSQLVAR) : Z := Z.land (sqltype var) (Z.lnot 1).

Definition temporal (t : Z) : Prop :=
  t = SQL_TIMESTAMP \/ t = SQL_TYPE_DATE \/ t = SQL_TYPE_TIME.

(** The sizing rule in the words of the specification: declared length plus
    the length prefix for varying text, the engine's encoded timestamp for
    the temporal types, the declared length for everything else. *)
Definition sizing_rule (var : XSQLVAR) : Z :=
  let t := wire_type var in
  if t =? SQL_VARYING then sqllen var + sizeof_short
  else if t =? SQL_TEXT then sqllen var
  else if (t =? SQL_TIMESTAMP) || (t =? SQL_TYPE_DATE) || (t =? SQL_TYPE_TIME)
  then sizeof_ISC_TIMESTAMP
  else sqllen var.

(** The text has no quote character in it. *)
Definition quote_free (w : string) : Prop :=
  ~ In "034"%char (list_ascii_of_string w).

(** The search path [{"a,b", c}], braces excluded. *)
Definition quoted_comma_path : string :=
  (dquote ++ "a,b" ++ dquote ++ ", c")%string.

(** A list of exactly six, or exactly three, converted values. *)
Definition six (r : list Z) : option (Z * Z * Z * Z * Z * Z) :=
  match r with
  | [y; m; d; hh; mm; ss] => Some (y, m, d, hh, mm, ss)
  | _ => None
  end.

Definition three (r : list Z) : option (Z * Z * Z) :=
  match r with
  | [x; y; z] => Some (x, y, z)
  | _ => None
  end.

(** The [std::tm] of a date and a time of day: the year counts from 1900
    and the month from zero. *)
Definition calendar (y m d hh mm ss : Z) : tm :=
  {| tm_sec := ss; tm_min := mm; tm_hour := hh; tm_mday := d;
     tm_mon := m - 1; tm_year := y - 1900;
     tm_wday := 0; tm_yday := 0; tm_isdst := 0 |}.

(** The [std::tm] of a time of day alone. *)
Definition time_of_day (hh mm ss : Z) : tm :=
  {| tm_sec := ss; tm_min := mm; tm_hour := hh; tm_mday := 0;
     tm_mon := 0; tm_year := 0;
     tm_wday := 0; tm_yday := 0; tm_isdst := 0 |}.

(** The parser of timestamp and date columns in the words of the
    specification: date and time separated by white space, then by a [T],
    then the date alone at midnight; the first pattern that matches wins. *)
Definition parse_date_time (a : abi) (s : list byte) : option tm :=
  match six (sscanf a s "%hu-%hu-%hu %hu:%hu:%hu") with
  | Some (y, m, d, hh, mm, ss) => Some (calendar y m d hh mm ss)
  | None =>
      match six (sscanf a s "%hu-%hu-%huT%hu:%hu:%hu") with
      | Some (y, m, d, hh, mm, ss) => Some (calendar y m d hh mm ss)
      | None =>
          match three (sscanf a s "%hu-%hu-%hu") with
          | Some (y, m, d) => Some (calendar y m d 0 0 0)
          | None => None
          end
      end
  end.

(** The parser of time-only columns. *)
Definition parse_time (a : abi) (s : list byte) : option tm :=
  match three (sscanf a s "%hu:%hu:%hu") with
  | Some (hh, mm, ss) => Some (time_of_day hh mm ss)
  | None => None
  end.

(** Decimal numerals: the digits [ds], most significant first, as text and
    as a number. *)
Definition digit_byte (d : Z) : byte := byte_of_Z (48 + d).
Definition numeral (ds : list Z) : list byte := map digit_byte ds.
Definition value (ds : list Z) : Z :=
  fold_left (fun acc d => 10 * acc + d) ds 0.

(** A non-empty run of decimal digits whose value fits an [unsigned short]. *)
Definition digits (ds : list Z) : Prop :=
  ds <> [] /\ Forall (fun d => 0 <= d <= 9) ds /\ value ds < 65536.

(** What follows a numeral: the end of the text, or a byte that is not a
    digit. *)
Definition stops (rest : list byte) : Prop :=
  match rest with
  | [] => True
  | b :: _ => isdigit b = false
  end.

(** The texts [y-m-d] and [hh:mm:ss]. *)
Definition date_text (y m d : list Z) : list byte :=
  numeral y ++ "-"%byte :: numeral m ++ "-"%byte :: numeral d.
Definition time_text (hh mm ss : list Z) : list byte :=
  numeral hh ++ ":"%byte :: numeral mm ++ ":"%byte :: numeral ss.

(** The descriptor [var] once its [sqldata] points to the array [buf]. *)
Definition bound_to (buf : list byte) (var : XSQLVAR) : XSQLVAR :=
  {| sqltype := sqltype var; sqlscale := sqlscale var; sqllen := sqllen var;
     sqldata := buf |}.

End spec.

(** * Instances for evaluating the model on concrete inputs

    The theorems below hold for every implementation of the SDK classes.
    These small implementations serve to run the functions on examples. *)

Module samples.
Import firebird postgresql.

(** A packed encoding in the style of the engine's: seconds of the day, and
    a date as decimal digits. *)
Definition packed_ibase : ibase := {|
  isc_encode_timestamp := fun t =>
    (tm_year t * 10000 + tm_mon t * 100 + tm_mday t,
     (tm_hour t * 60 + tm_min t) * 60 + tm_sec t);
  isc_encode_sql_time := fun t => (tm_hour t * 60 + tm_min t) * 60 + tm_sec t;
  isc_encode_sql_date := fun t =>
    tm_year t * 10000 + tm_mon t * 100 + tm_mday t;
  isc_decode_timestamp := fun _ t => t;
  isc_decode_sql_time := fun _ t => t;
  isc_decode_sql_date := fun _ t => t
|}.

(** Columns and memory to run the functions on. *)
Definition column (type len : Z) : XSQLVAR :=
  {| sqltype := type; sqlscale := 0; sqllen := len; sqldata := [] |}.
Definition zeroed : nat -> byte := fun _ => x00.
Definition canary (n : nat) : list byte := repeat "#"%byte n.
Definition bytes (s : string) : list byte := list_byte_of_string s.

(** The text and temporal paths never call the decimal codec. *)
Definition no_decimal : common_h := {|
  parse_decimal := fun _ _ _ => undefined;
  format_decimal := fun _ _ _ => Undefined
|}.

(** A blob store whose session is the content of the one blob and the number
    of bytes the engine delivers before the connection fails. *)
Definition flaky_blob : blob_backend := {|
  session := list byte * Z;
  blob := list byte * Z;
  blob_ctor := fun s => s;
  assign := fun _ => ret tt;
  get_len := fun b => (Done (len (fst b)), b);
  read_from_start := fun toRead b =>
    (Done (take (Z.min toRead (snd b)) (fst b)), b)
|}.

(** A machine on which every socket call succeeds, on an [AF_INET] socket. *)
Definition calm_sockets : sockets := {|
  os := unit;
  getsockname := fun _ o => ((0, 2), o);
  setsockopt := fun _ _ _ _ o => (0, o);
  strerror_errno := fun _ => "Success"%string;
  WSAGetLastError := fun _ => 0
|}.

(** That machine before any call, and after the given calls. *)
Definition after_calls (calls : list syscall) : @net calm_sockets :=
  @Build_net calm_sockets tt calls.

Fixpoint digits_value (s : string) (acc : Z) : option Z :=
  match s with
  | EmptyString => Some acc
  | String c r =>
      let n := Z.of_N (N_of_ascii c) in
      if (48 <=? n) && (n <=? 57) then digits_value r (10 * acc + (n - 48))
      else None
  end.

(** Decimal integers with an optional minus sign. *)
Definition decimal_cstrtoi : cstrtoi_h := {|
  cstring_to_integer := fun s =>
    match s with
    | EmptyString => None
    | String "-" EmptyString => None
    | String "-" r => option_map Z.opp (digits_value r 0)
    | _ => digits_value s 0
    end
|}.

(** A server that knows a search path and a user, and a connection that
    breaks after [fuel] further commands. *)
Record toy_conn : Type := {
  toy_search_path : string;
  toy_user : string;
  toy_fuel : nat
}.

Inductive toy_result : Type :=
| Tuples (rows : list string)
| CommandOk
| Fatal.

Fixpoint double_apostrophes (s : string) : string :=
  match s with
  | EmptyString => EmptyString
  | String c r =>
      if Ascii.eqb c "'" then String c (String c (double_apostrophes r))
      else String c (double_apostrophes r)
  end.

Definition toy_libpq : libpq := {|
  PGconn := toy_conn;
  PGresult := toy_result;
  PQstatus := fun c => match toy_fuel c with O => 1 | S _ => 0 end;
  PQexec := fun q c =>
    match toy_fuel c with
    | O => (Fatal, c)
    | S O => (Fatal, {| toy_search_path := toy_search_path c;
                        toy_user := toy_user c; toy_fuel := O |})
    | S k =>
        let c' := {| toy_search_path := toy_search_path c;
                     toy_user := toy_user c; toy_fuel := k |} in
        if String.eqb q "SHOW search_path" then
          (Tuples [toy_search_path c], c')
        else if String.eqb q "SELECT current_user" then
          (Tuples [toy_user c], c')
        else (CommandOk, c')
    end;
  PQntuples := fun r =>
    match r with Tuples rows => len rows | _ => 0 end;
  PQgetvalue := fun r _ _ =>
    match r with Tuples (v :: _) => v | _ => EmptyString end;
  PQescapeStringConn := fun _ s => (double_apostrophes s, 0);
  check_for_data := fun r errMsg =>
    match r with
    | Tuples _ => Done true
    | CommandOk => Done false
    | Fatal => Throw (mk_soci_error errMsg)
    end
|}.

(** A fresh connection to that server, good for [fuel] commands. *)
Definition toy_link (path user : string) (fuel : nat) (sent : list string)
  : @link toy_libpq :=
  @Build_link toy_libpq
    {| toy_search_path := path; toy_user := user; toy_fuel := fuel |} sent.

End samples.

(** * Vocabulary of the further properties *)

Module props.
Import firebird.

(** The descriptor [var] with the nullable flag, bit 0 of [sqltype], set. *)
Definition nullable (var : XSQLVAR) : XSQLVAR :=
  {| sqltype := Z.lor (sqltype var) 1; sqlscale := sqlscale var;
     sqllen := sqllen var; sqldata := sqldata var |}.

(** The wire types [setTextParam] hands to the decimal codec. *)
Definition integer_type (t : Z) : Prop :=
  t = SQL_SHORT \/ t = SQL_LONG \/ t = SQL_INT64.

(** The wire types holding text. *)
Definition text_type (t : Z) : Prop := t = SQL_TEXT \/ t = SQL_VARYING.

(** A schema name that needs no quotes in a search path: not empty, and
    free of quote characters, commas and spaces. *)
Definition plain_char (c : ascii) : Prop :=
  c <> "034"%char /\ c <> ","%char /\ c <> " "%char.
Definition plain (w : string) : Prop :=
  w <> EmptyString /\ Forall plain_char (list_ascii_of_string w).

(** A text between two apostrophes. *)
Definition in_apostrophes (s : string) : Prop :=
  exists body, s = ("'" ++ body ++ "'")%string.

(** An [ISC_DATE] is an [int], an [ISC_TIME] an [unsigned int]. *)
Definition is_ISC_DATE (z : Z) : Prop := - 2 ^ 31 <= z < 2 ^ 31.
Definition is_ISC_TIME (z : Z) : Prop := 0 <= z < 2 ^ 32.

Section ConnectVocabulary.
Import postgresql.
Context {PQ : libpq} {SK : sockets} {CP : connection_parameters_h}
        {FILE : Type}.

(** A failed [connect]: the session keeps the connection and the parameters
    it had, and a connection opened on the way has been finished. *)
Definition connect_failed (w w' : world (FILE := FILE)) : Prop :=
  conn_ (members w') = conn_ (members w) /\
  connectionParameters_ w' = connectionParameters_ w /\
  ((opened w' = opened w /\
    released (members w') = released (members w))
   \/
   (exists conninfo c c',
      opened w' = opened w ++ [(conninfo, c)] /\
      released (members w') = released (members w) ++ [Finished c'])).

(** Steps of [connect] that touch nothing but the single-row flag and the
    trace file. *)
Definition prepared (w w' : world (FILE := FILE)) : Prop :=
  conn_ (members w') = conn_ (members w) /\
  released (members w') = released (members w) /\
  connectionParameters_ w' = connectionParameters_ w /\
  opened w' = opened w /\
  commands w' = commands w.

(** The one command [connect] may send, by server version. *)
Definition float_digits_fixup (version : Z) : list string :=
  if version <? 90000 then ["SET extra_float_digits = 2"%string]
  else if version <? 120000 then ["SET extra_float_digits = 3"%string]
  else [].

(** What [connect] leaves behind, by outcome. *)
Definition connect_post {CL : client_library FILE}
    (parameters : connection_parameters) (w : world (FILE := FILE))
    (res : outcome unit * world (FILE := FILE)) : Prop :=
  let w' := snd res in
  match fst res with
  | Throw _ => connect_failed w w'
  | Undefined => True
  | Done _ =>
      exists conninfo c c',
        opened w' = opened w ++ [(conninfo, c)] /\
        PQstatus c = CONNECTION_OK /\
        conn_ (members w') = Some c' /\
        released (members w') = released (members w) /\
        connectionParameters_ w' = parameters /\
        commands w'
        = commands w
          ++ float_digits_fixup
               (PQserverVersion
                  match traceFile_ (members w') with
                  | Some f => PQtrace c f
                  | None => c
                  end)
  end.

End ConnectVocabulary.

End props.

(** * Instances for evaluating the connection code *)

Module more_samples.
Import postgresql samples.

(** The toy server rejects nothing but what its connection cannot carry. *)
Definition toy_checks : @result_checks toy_libpq :=
  @Build_result_checks toy_libpq
    (fun (r : toy_result) errMsg =>
       match r with
       | Fatal => Throw (mk_soci_error errMsg)
       | _ => Done tt
       end).

Fixpoint lookup (name : string) (options : list (string * string))
  : option string :=
  match options with
  | [] => None
  | (k, v) :: rest => if String.eqb k name then Some v else lookup name rest
  end.

Fixpoint remove (name : string) (options : list (string * string))
  : list (string * string) :=
  match options with
  | [] => []
  | (k, v) :: rest =>
      if String.eqb k name then remove name rest else (k, v) :: remove name rest
  end.

(** Options as a list of names and values, already split. *)
Definition listed_options : connection_parameters_h := {|
  connection_parameters := list (string * string);
  extract_options_from_space_separated_string := fun p => Done p;
  extract_option := fun name p => (lookup name p, remove name p);
  is_true_value := fun name value =>
    if String.eqb value "1" then Done true
    else if String.eqb value "0" then Done false
    else Throw (mk_soci_error ("Invalid value for option " ++ name));
  build_string_from_options := fun q p =>
    String.concat " "
      (map (fun kv => (fst kv ++ "=" ++ String q (snd kv ++ String q ""))%string)
         p);
  option_reconnect := "reconnect"
|}.

(** A library of version 11 in front of a server of version 11: the host
    [down] yields a handle whose status is bad, no option at all yields no
    handle, anything else a working connection. *)
Definition toy_client : @client_library toy_libpq string :=
  @Build_client_library toy_libpq string
    110000
    (fun conninfo =>
       if String.eqb conninfo "" then None
       else
         Some {| toy_search_path := "public"; toy_user := "alice";
                 toy_fuel :=
                   if String.eqb conninfo "host='down'" then 0 else 5 |})
    (fun _ => "no route to host"%string)
    (fun (c : toy_conn) _ => c)
    (fun _ => 3)
    (fun _ => 110000)
    (fun path _ => if String.eqb path "" then None else Some path).

(** A session backend as its constructor leaves it before [connect]. *)
Definition fresh_world
  : @world toy_libpq calm_sockets listed_options string :=
  @Build_world toy_libpq calm_sockets listed_options string
    (@Build_handles toy_libpq string None None [])
    false [] (after_calls []) [] [].

(** A blob whose length is known and whose content cannot be read. *)
Definition unreadable_blob : firebird.blob_backend := {|
  firebird.session := Z;
  firebird.blob := Z;
  firebird.blob_ctor := fun s => s;
  firebird.assign := fun _ => ret tt;
  firebird.get_len := fun b => (Done b, b);
  firebird.read_from_start := fun _ b =>
    (Throw (mk_soci_error "Cannot read from blob."), b)
|}.

Definition toy_connect (parameters : list (string * string)) :=
  connect (PQ := toy_libpq) (RC := toy_checks) (SK := calm_sockets)
    (CI := decimal_cstrtoi) (CP := listed_options) (FILE := string)
    (CL := toy_client) HAVE_TCP_USER_TIMEOUT false parameters fresh_world.

End more_samples.

(** * Properties *)

(** ** Lists, bytes and machine integers *)

Lemma len_nonneg {A} (l : list A) : 0 <= len l.
Proof. unfold len. lia. Qed.

Lemma len_app {A} (l1 l2 : list A) : len (l1 ++ l2) = len l1 + len l2.
Proof. unfold len. rewrite length_app. lia. Qed.

Lemma len_repeat {A} (x : A) (n : nat) : len (repeat x n) = Z.of_nat n.
Proof. unfold len. now rewrite repeat_length. Qed.

Lemma take_0 {A} (l : list A) : take 0 l = [].
Proof. reflexivity. Qed.

Lemma drop_0 {A} (l : list A) : drop 0 l = l.
Proof. reflexivity. Qed.

Lemma take_len_app {A} (l1 l2 : list A) : take (len l1) (l1 ++ l2) = l1.
Proof.
  unfold take, len. rewrite Nat2Z.id, firstn_app, Nat.sub_diag, firstn_all.
  simpl. apply app_nil_r.
Qed.

Lemma take_exact_app {A} (n : Z) (l1 l2 : list A) :
  len l1 = n -> take n (l1 ++ l2) = l1.
Proof. intros <-. apply take_len_app. Qed.

Lemma drop_len_app {A} (l1 l2 : list A) : drop (len l1) (l1 ++ l2) = l2.
Proof.
  unfold drop, len. rewrite Nat2Z.id, skipn_app, Nat.sub_diag, skipn_all.
  reflexivity.
Qed.

Lemma drop_app_ge {A} (n : Z) (l1 l2 : list A) :
  len l1 <= n -> drop n (l1 ++ l2) = drop (n - len l1) l2.
Proof.
  intros Hn. unfold drop, len in *. rewrite skipn_app.
  rewrite (skipn_all2 l1) by lia. simpl. f_equal. lia.
Qed.

Lemma drop_drop {A} (n m : Z) (l : list A) :
  0 <= n -> 0 <= m -> drop n (drop m l) = drop (m + n) l.
Proof.
  intros Hn Hm. unfold drop. rewrite skipn_skipn. f_equal. lia.
Qed.

Lemma len_drop {A} (n : Z) (l : list A) :
  0 <= n <= len l -> len (drop n l) = len l - n.
Proof.
  intros Hn. unfold drop, len in *. rewrite length_skipn. lia.
Qed.

Lemma to_unsigned_small (bits z : Z) :
  0 <= z < 2 ^ bits -> to_unsigned bits z = z.
Proof. intros Hz. unfold to_unsigned. now apply Z.mod_small. Qed.

Lemma short_fits_size_t (bits z : Z) :
  16 <= bits -> 0 <= z <= 32769 -> 0 <= z < 2 ^ bits.
Proof.
  intros Hb Hz. split; [lia|].
  assert (2 ^ 16 <= 2 ^ bits) by (apply Z.pow_le_mono_r; lia).
  change (2 ^ 16) with 65536 in *. lia.
Qed.

Lemma to_signed_small (z : Z) : 0 <= z <= 32767 -> to_signed 16 z = z.
Proof.
  intros Hz. unfold to_signed.
  change (2 ^ 16) with 65536. change (2 ^ (16 - 1)) with 32768.
  rewrite Z.mod_small by lia.
  destruct (z <? 32768) eqn:E; [reflexivity|].
  apply Z.ltb_ge in E. lia.
Qed.

(** ** The shapes of text the temporal patterns accept *)

Section Shapes.
Import firebird spec.
Context (a : abi) (Hlong : 16 <= ulong_bits a).

Ltac each_digit d H :=
  assert (d = 0 \/ d = 1 \/ d = 2 \/ d = 3 \/ d = 4 \/ d = 5 \/ d = 6
          \/ d = 7 \/ d = 8 \/ d = 9) as Hcases by lia;
  clear H;
  repeat (destruct Hcases as [-> | Hcases]); [.. | subst d].

Lemma digit_byte_facts (d : Z) :
  0 <= d <= 9 ->
  Z_of_byte (digit_byte d) = 48 + d
  /\ isdigit (digit_byte d) = true
  /\ isspace (digit_byte d) = false
  /\ Byte.eqb (digit_byte d) "-"%byte = false
  /\ Byte.eqb (digit_byte d) "+"%byte = false
  /\ Byte.eqb (digit_byte d) x00 = false.
Proof.
  intros H. each_digit d H; repeat split; reflexivity.
Qed.

Lemma read_digits_numeral (ds : list Z) (rest : list byte) (acc : Z) :
  Forall (fun d => 0 <= d <= 9) ds -> stops rest ->
  read_digits (numeral ds ++ rest) acc
  = (fold_left (fun acc d => 10 * acc + d) ds acc, rest).
Proof.
  intros Hds Hrest. revert acc.
  induction Hds as [|d ds Hd Hds IH]; intros acc.
  - cbn [numeral map app fold_left].
    destruct rest as [|b rest]; [reflexivity|].
    cbn [stops] in Hrest. cbn [read_digits]. now rewrite Hrest.
  - cbn [numeral map app read_digits fold_left].
    destruct (digit_byte_facts d Hd) as (Hv & Hdig & _).
    rewrite Hdig, Hv. fold (numeral ds). rewrite IH.
    do 2 f_equal. lia.
Qed.

Lemma value_nonneg (ds : list Z) (acc : Z) :
  Forall (fun d => 0 <= d <= 9) ds -> 0 <= acc ->
  0 <= fold_left (fun acc d => 10 * acc + d) ds acc.
Proof.
  intros Hds. revert acc.
  induction Hds as [|d ds Hd Hds IH]; intros acc Hacc; cbn [fold_left];
    [assumption|].
  apply IH. lia.
Qed.

Lemma scan_hu_numeral (ds : list Z) (rest : list byte) :
  digits ds -> stops rest ->
  scan_hu a (numeral ds ++ rest) = Some (value ds, rest).
Proof.
  intros (Hne & Hds & Hfit) Hrest.
  pose proof (value_nonneg ds 0 Hds ltac:(lia)) as Hnn. fold (value ds) in Hnn.
  pose proof (read_digits_numeral ds rest 0 Hds Hrest) as Hread.
  fold (value ds) in Hread.
  destruct ds as [|d ds]; [congruence|].
  pose proof (Forall_inv Hds) as Hd. cbv beta in Hd.
  destruct (digit_byte_facts d Hd) as (_ & Hdig & Hsp & Hminus & Hplus & _).
  unfold scan_hu.
  cbn [numeral map app skip_space] in *. rewrite Hsp, Hminus, Hplus, Hdig.
  rewrite Hread. unfold strtoul_value, to_unsigned.
  assert (2 ^ 16 <= 2 ^ ulong_bits a) by (apply Z.pow_le_mono_r; lia).
  change (2 ^ 16) with 65536 in *.
  destruct (Z.leb_spec (2 ^ ulong_bits a) (value (d :: ds))); [lia|].
  now rewrite Z.mod_small by lia.
Qed.

Lemma c_str_numeral (ds : list Z) (rest : list byte) :
  Forall (fun d => 0 <= d <= 9) ds ->
  c_str (numeral ds ++ rest) = numeral ds ++ c_str rest.
Proof.
  induction 1 as [|d ds Hd Hds IH]; [reflexivity|].
  cbn [numeral map app c_str].
  destruct (digit_byte_facts d Hd) as (_ & _ & _ & _ & _ & Hnul).
  rewrite Hnul. fold (numeral ds). now rewrite IH.
Qed.

Lemma skip_space_numeral (ds : list Z) (rest : list byte) :
  digits ds -> skip_space (numeral ds ++ rest) = numeral ds ++ rest.
Proof.
  intros (Hne & Hds & _). destruct ds as [|d ds]; [congruence|].
  pose proof (Forall_inv Hds) as Hd. cbv beta in Hd.
  destruct (digit_byte_facts d Hd) as (_ & _ & Hsp & _).
  cbn [numeral map app skip_space]. now rewrite Hsp.
Qed.

Lemma convert_numeral (ds : list Z) (rest : list byte) (f : list directive) :
  digits ds -> stops rest ->
  run_directives a (numeral ds ++ rest) (Conv_hu :: f)
  = value ds :: run_directives a rest f.
Proof.
  intros Hds Hrest. cbn [run_directives].
  now rewrite scan_hu_numeral.
Qed.

Lemma match_literal (b : byte) (rest : list byte) (f : list directive) :
  run_directives a (b :: rest) (Lit (ascii_of_byte b) :: f)
  = run_directives a rest f.
Proof. cbn [run_directives]. now rewrite Ascii.eqb_refl. Qed.

Lemma match_space (input : list byte) (f : list directive) :
  run_directives a input (Space :: f) = run_directives a (skip_space input) f.
Proof. reflexivity. Qed.

Lemma convert_three (x y z : list Z) (sep : byte) (rest : list byte)
    (f : list directive) :
  digits x -> digits y -> digits z -> stops rest ->
  isdigit sep = false ->
  run_directives a
    (numeral x ++ sep :: numeral y ++ sep :: numeral z ++ rest)
    (Conv_hu :: Lit (ascii_of_byte sep) :: Conv_hu
       :: Lit (ascii_of_byte sep) :: Conv_hu :: f)
  = value x :: value y :: value z :: run_directives a rest f.
Proof.
  intros Hx Hy Hz Hrest Hsep.
  rewrite convert_numeral, match_literal by assumption.
  rewrite convert_numeral, match_literal by assumption.
  now rewrite convert_numeral.
Qed.

Lemma c_str_three (x y z : list Z) (sep : byte) (rest : list byte) :
  digits x -> digits y -> digits z -> Byte.eqb sep x00 = false ->
  c_str (numeral x ++ sep :: numeral y ++ sep :: numeral z ++ rest)
  = numeral x ++ sep :: numeral y ++ sep :: numeral z ++ c_str rest.
Proof.
  intros (_ & Hx & _) (_ & Hy & _) (_ & Hz & _) Hsep.
  rewrite c_str_numeral by assumption. cbn [c_str]. rewrite Hsep.
  rewrite c_str_numeral by assumption. cbn [c_str]. rewrite Hsep.
  now rewrite c_str_numeral.
Qed.

Lemma date_text_app (y m d : list Z) (rest : list byte) :
  date_text y m d ++ rest
  = numeral y ++ "-"%byte :: numeral m ++ "-"%byte :: numeral d ++ rest.
Proof.
  unfold date_text. rewrite <- app_assoc. cbn [app]. f_equal. f_equal.
  rewrite <- app_assoc. reflexivity.
Qed.

Lemma sscanf_date (y m d : list Z) (rest : list byte) (f : list directive) :
  digits y -> digits m -> digits d -> stops (c_str rest) ->
  run_directives a (c_str (date_text y m d ++ rest))
    (Conv_hu :: Lit "-" :: Conv_hu :: Lit "-" :: Conv_hu :: f)
  = value y :: value m :: value d :: run_directives a (c_str rest) f.
Proof.
  intros Hy Hm Hd Hrest.
  rewrite date_text_app, c_str_three by (assumption || reflexivity).
  now apply (convert_three y m d "-"%byte).
Qed.

Lemma sscanf_time (hh mm ss : list Z) (f : list directive) :
  digits hh -> digits mm -> digits ss ->
  run_directives a (c_str (time_text hh mm ss))
    (Conv_hu :: Lit ":" :: Conv_hu :: Lit ":" :: Conv_hu :: f)
  = value hh :: value mm :: value ss :: run_directives a [] f.
Proof.
  intros Hh Hm Hs. unfold time_text.
  rewrite <- (app_nil_r (numeral ss)).
  rewrite c_str_three by (assumption || reflexivity).
  now apply (convert_three hh mm ss ":"%byte).
Qed.

Lemma formats :
  parse_format "%hu-%hu-%hu %hu:%hu:%hu"
  = [Conv_hu; Lit "-"; Conv_hu; Lit "-"; Conv_hu; Space;
     Conv_hu; Lit ":"; Conv_hu; Lit ":"; Conv_hu]
  /\ parse_format "%hu-%hu-%huT%hu:%hu:%hu"
     = [Conv_hu; Lit "-"; Conv_hu; Lit "-"; Conv_hu; Lit "T";
        Conv_hu; Lit ":"; Conv_hu; Lit ":"; Conv_hu]
  /\ parse_format "%hu-%hu-%hu"
     = [Conv_hu; Lit "-"; Conv_hu; Lit "-"; Conv_hu]
  /\ parse_format "%hu:%hu:%hu"
     = [Conv_hu; Lit ":"; Conv_hu; Lit ":"; Conv_hu].
Proof. repeat split; reflexivity. Qed.

Lemma c_str_time_text (hh mm ss : list Z) :
  digits hh -> digits mm -> digits ss ->
  c_str (time_text hh mm ss) = time_text hh mm ss.
Proof.
  intros Hh Hm Hs. unfold time_text.
  rewrite <- (app_nil_r (numeral ss)).
  now rewrite c_str_three by (assumption || reflexivity).
Qed.

(** Date, white space, time: the first pattern takes all six fields. *)
Lemma shape_date_space_time (y m d hh mm ss : list Z) :
  digits y -> digits m -> digits d ->
  digits hh -> digits mm -> digits ss ->
  parse_date_time a (date_text y m d ++ " "%byte :: time_text hh mm ss)
  = Some (calendar (value y) (value m) (value d)
            (value hh) (value mm) (value ss)).
Proof.
  intros Hy Hm Hd Hh Hmi Hs. unfold parse_date_time, sscanf.
  destruct formats as (-> & _).
  rewrite sscanf_date by (assumption || reflexivity).
  change (c_str (" "%byte :: time_text hh mm ss))
    with (" "%byte :: c_str (time_text hh mm ss)).
  rewrite match_space.
  change (skip_space (" "%byte :: c_str (time_text hh mm ss)))
    with (skip_space (c_str (time_text hh mm ss))).
  rewrite c_str_time_text by assumption.
  unfold time_text at 1. rewrite skip_space_numeral by assumption.
  fold (time_text hh mm ss).
  rewrite <- (c_str_time_text hh mm ss) by assumption.
  rewrite sscanf_time by assumption.
  reflexivity.
Qed.

(** Date, [T], time: the first pattern stops at the [T], the second takes
    all six fields. *)
Lemma shape_date_T_time (y m d hh mm ss : list Z) :
  digits y -> digits m -> digits d ->
  digits hh -> digits mm -> digits ss ->
  parse_date_time a (date_text y m d ++ "T"%byte :: time_text hh mm ss)
  = Some (calendar (value y) (value m) (value d)
            (value hh) (value mm) (value ss)).
Proof.
  intros Hy Hm Hd Hh Hmi Hs. unfold parse_date_time, sscanf.
  destruct formats as (-> & -> & _).
  rewrite !sscanf_date by (assumption || reflexivity).
  change (c_str ("T"%byte :: time_text hh mm ss))
    with ("T"%byte :: c_str (time_text hh mm ss)).
  rewrite (match_literal "T"%byte).
  rewrite sscanf_time by assumption.
  reflexivity.
Qed.

(** The date alone: neither of the first two patterns completes, the third
    takes the date, and the time is midnight. *)
Lemma shape_date_alone (y m d : list Z) :
  digits y -> digits m -> digits d ->
  parse_date_time a (date_text y m d)
  = Some (calendar (value y) (value m) (value d) 0 0 0).
Proof.
  intros Hy Hm Hd. unfold parse_date_time, sscanf.
  destruct formats as (-> & -> & -> & _).
  rewrite <- (app_nil_r (date_text y m d)).
  rewrite !sscanf_date by (assumption || exact I).
  reflexivity.
Qed.

(** Hour, minute and second on a time-only column. *)
Lemma shape_time (hh mm ss : list Z) :
  digits hh -> digits mm -> digits ss ->
  parse_time a (time_text hh mm ss)
  = Some (time_of_day (value hh) (value mm) (value ss)).
Proof.
  intros Hh Hm Hs. unfold parse_time, sscanf.
  destruct formats as (_ & _ & _ & ->).
  rewrite sscanf_time by assumption.
  reflexivity.
Qed.

End Shapes.

(** ** Firebird: buffer sizes *)

Section FirebirdProperties.
Import firebird spec.
Context (a : abi) {IB : ibase} {CH : common_h}.

Lemma len_allocBuffer (heap : nat -> byte) (var : XSQLVAR) :
  0 <= allocBuffer_size a var ->
  len (allocBuffer a heap var) = allocBuffer_size a var.
Proof.
  intros H. unfold allocBuffer, len. rewrite length_map, length_seq. lia.
Qed.

(** C2, as the code has it: a varying-text column gets its declared length
    plus [sizeof(short)], a temporal column gets [sizeof(std::tm)] whatever
    its declared length, and every other column, fixed text included, gets
    exactly its declared length. *)
Theorem allocBuffer_sizing (heap : nat -> byte) (var : XSQLVAR) :
  0 <= sqllen var <= 32767 ->
  16 <= size_t_bits a ->
  0 <= sizeof_tm a ->
  let size := len (allocBuffer a heap var) in
  (wire_type var = SQL_VARYING -> size = sqllen var + sizeof_short) /\
  (wire_type var = SQL_TEXT -> size = sqllen var) /\
  (temporal (wire_type var) -> size = sizeof_tm a) /\
  (wire_type var <> SQL_VARYING -> ~ temporal (wire_type var) ->
   size = sqllen var).
Proof.
  intros Hlen Hbits Htm size.
  assert (Hsz : allocBuffer_size a var =
                if wire_type var =? SQL_VARYING then sqllen var + sizeof_short
                else if (wire_type var =? SQL_TIMESTAMP)
                        || (wire_type var =? SQL_TYPE_TIME)
                        || (wire_type var =? SQL_TYPE_DATE)
                     then sizeof_tm a else sqllen var).
  { unfold allocBuffer_size, wire_type, sizeof_short.
    rewrite !to_unsigned_small by (apply short_fits_size_t; lia).
    reflexivity. }
  assert (Hnn : 0 <= allocBuffer_size a var).
  { rewrite Hsz. unfold sizeof_short.
    repeat match goal with |- context [if ?b then _ else _] => destruct b end;
      lia. }
  subst size. rewrite (len_allocBuffer heap var Hnn), Hsz.
  unfold temporal. repeat split.
  - intros ->. reflexivity.
  - intros ->. reflexivity.
  - intros [-> | [-> | ->]]; reflexivity.
  - intros Hv Ht.
    destruct (Z.eqb_spec (wire_type var) SQL_VARYING); [contradiction|].
    destruct (Z.eqb_spec (wire_type var) SQL_TIMESTAMP); [tauto|].
    destruct (Z.eqb_spec (wire_type var) SQL_TYPE_TIME); [tauto|].
    destruct (Z.eqb_spec (wire_type var) SQL_TYPE_DATE); [tauto|].
    reflexivity.
Qed.

(** ** Firebird: writing and reading text *)

Lemma text_or_varying (var : XSQLVAR) :
  wire_type var = SQL_TEXT \/ wire_type var = SQL_VARYING ->
  (Z.land (sqltype var) (Z.lnot 1) =? SQL_VARYING)
  || (Z.land (sqltype var) (Z.lnot 1) =? SQL_TEXT) = true.
Proof.
  unfold wire_type. intros [-> | ->]; reflexivity.
Qed.

(** C1: on a fixed-text or varying-text column, a [size] greater than the
    declared length makes [setTextParam] throw the "is too long" error, and
    the buffer after the call is the buffer before it. *)
Theorem setTextParam_too_long (s : list byte) (size : Z) (var : XSQLVAR)
    (buf : list byte) :
  wire_type var = SQL_TEXT \/ wire_type var = SQL_VARYING ->
  0 <= sqllen var <= 32767 ->
  16 <= size_t_bits a ->
  sqllen var < size ->
  setTextParam a s size var buf
  = (Throw (mk_soci_error (too_long s size var)), buf).
Proof.
  intros Hty Hlen Hbits Hsize. unfold setTextParam.
  rewrite (text_or_varying var Hty).
  rewrite to_unsigned_small by (apply short_fits_size_t; lia).
  destruct (size >? sqllen var) eqn:E.
  - reflexivity.
  - rewrite Z.gtb_ltb in E. apply Z.ltb_ge in E. lia.
Qed.

Lemma memcpy_prefix (src rest buf : list byte) :
  len src <= len buf ->
  memcpy 0 (src ++ rest) (len src) buf
  = (Done tt, src ++ drop (len src) buf).
Proof.
  intros Hfit. unfold memcpy.
  pose proof (len_nonneg src) as Hs. pose proof (len_nonneg rest) as Hr.
  rewrite len_app.
  replace ((0 <=? len src) && (len src <=? len src + len rest) && (0 <=? 0)
           && (0 + len src <=? len buf)) with true.
  - rewrite take_0, take_len_app. reflexivity.
  - symmetry. rewrite !andb_true_iff, !Z.leb_le. lia.
Qed.

Lemma memset_after (pre buf : list byte) (c : byte) (n : Z) :
  0 <= n -> len pre + n <= len buf ->
  memset (len pre) c n (pre ++ drop (len pre) buf)
  = (Done tt, pre ++ repeat c (Z.to_nat n) ++ drop (len pre + n) buf).
Proof.
  intros Hn Hfit. unfold memset.
  pose proof (len_nonneg pre) as Hp.
  rewrite len_app, len_drop by lia.
  replace ((0 <=? n) && (0 <=? len pre)
           && (len pre + n <=? len pre + (len buf - len pre))) with true.
  - rewrite take_len_app, drop_app_ge by lia.
    rewrite drop_drop by lia.
    replace (len pre + (len pre + n - len pre)) with (len pre + n) by lia.
    reflexivity.
  - symmetry. rewrite !andb_true_iff, !Z.leb_le. lia.
Qed.

Lemma setTextParam_text (s : list byte) (var : XSQLVAR) (buf : list byte) :
  wire_type var = SQL_TEXT ->
  0 <= sqllen var <= 32767 ->
  16 <= size_t_bits a ->
  len s <= sqllen var ->
  sqllen var <= len buf ->
  setTextParam a s (len s) var buf
  = (Done tt,
     s ++ repeat " "%byte (Z.to_nat (sqllen var - len s))
       ++ drop (sqllen var) buf).
Proof.
  intros Hty Hlen Hbits Hs Hbuf. unfold setTextParam.
  rewrite (text_or_varying var (or_introl Hty)).
  unfold wire_type in Hty. rewrite Hty.
  change (SQL_TEXT =? SQL_VARYING) with false. cbv iota.
  pose proof (len_nonneg s) as Hs0.
  rewrite to_unsigned_small by (apply short_fits_size_t; lia).
  destruct (len s >? sqllen var) eqn:E.
  { rewrite Z.gtb_ltb in E. apply Z.ltb_lt in E. lia. }
  rewrite to_signed_small by lia.
  unfold bind. rewrite memcpy_prefix by lia.
  destruct (len s <? sqllen var) eqn:E2.
  - apply Z.ltb_lt in E2. rewrite memset_after by lia.
    replace (len s + (sqllen var - len s)) with (sqllen var) by lia.
    reflexivity.
  - apply Z.ltb_ge in E2. assert (Heq : sqllen var = len s) by lia.
    rewrite Heq, Z.sub_diag. reflexivity.
Qed.

(** C3: after [setTextParam] has written at most L bytes into a fixed-text
    column of declared length L, [getTextParam] on the same buffer returns
    exactly L bytes: the bytes written, then spaces, none of them stripped. *)
Theorem text_round_trip (s : list byte) (var : XSQLVAR) (buf : list byte) :
  wire_type var = SQL_TEXT ->
  0 <= sqllen var <= 32767 ->
  16 <= size_t_bits a ->
  len s <= sqllen var ->
  sqllen var <= len buf ->
  exists buf' padding,
    setTextParam a s (len s) var buf = (Done tt, buf') /\
    getTextParam (bound_to buf' var) = Done (s ++ padding) /\
    len (s ++ padding) = sqllen var /\
    Forall (fun b => b = " "%byte) padding.
Proof.
  intros Hty Hlen Hbits Hs Hbuf.
  pose proof (len_nonneg s) as Hs0.
  exists (s ++ repeat " "%byte (Z.to_nat (sqllen var - len s))
            ++ drop (sqllen var) buf),
         (repeat " "%byte (Z.to_nat (sqllen var - len s))).
  assert (Hl : len (s ++ repeat " "%byte (Z.to_nat (sqllen var - len s)))
               = sqllen var).
  { rewrite len_app, len_repeat. lia. }
  split; [now apply setTextParam_text|]. split; [|split].
  - unfold getTextParam, bound_to. cbn [sqltype sqldata sqllen sqlscale].
    unfold wire_type in Hty. rewrite Hty.
    change (SQL_TEXT =? SQL_VARYING) with false.
    change (SQL_TEXT =? SQL_TEXT) with true. cbv iota.
    unfold std_string. rewrite drop_0.
    rewrite app_assoc, len_app, Hl.
    pose proof (len_nonneg (drop (sqllen var) buf)).
    replace ((0 <=? sqllen var) && (0 + sqllen var <=? sqllen var + len (drop (sqllen var) buf)))
      with true by (symmetry; rewrite andb_true_iff, !Z.leb_le; lia).
    now rewrite (take_exact_app _ _ _ Hl).
  - exact Hl.
  - apply Forall_forall. intros b Hb. now apply repeat_spec in Hb.
Qed.

(** ** Firebird: the temporal codec *)

(** C5: for a type that is none of timestamp, date and time, [tmEncode] and
    [tmDecode] both throw "Unexpected type of date/time field" and leave
    their destination as it was; for those three types neither throws, and
    both return normally when the arrays are large enough. *)
Theorem tm_codec_type_check (type : Z) (t : tm) (dst src : list byte) :
  (~ temporal (Z.land type (Z.lnot 1)) ->
   tmEncode type t dst
   = (Throw (mk_soci_error (unexpected_date_time type)), dst) /\
   tmDecode type src t
   = (Throw (mk_soci_error (unexpected_date_time type)), t)) /\
  (temporal (Z.land type (Z.lnot 1)) ->
   (forall e, fst (tmEncode type t dst) <> Throw e) /\
   (forall e, fst (tmDecode type src t) <> Throw e) /\
   (sizeof_ISC_TIMESTAMP <= len dst -> fst (tmEncode type t dst) = Done tt) /\
   (sizeof_ISC_TIMESTAMP <= len src -> fst (tmDecode type src t) = Done tt)).
Proof.
  unfold temporal, tmEncode, tmDecode. split.
  - intros Hno.
    destruct (Z.eqb_spec (Z.land type (Z.lnot 1)) SQL_TIMESTAMP); [tauto|].
    destruct (Z.eqb_spec (Z.land type (Z.lnot 1)) SQL_TYPE_TIME); [tauto|].
    destruct (Z.eqb_spec (Z.land type (Z.lnot 1)) SQL_TYPE_DATE); [tauto|].
    split; reflexivity.
  - intros Hyes.
    assert (Hcpy : forall bytes n,
               n <= len bytes -> 0 <= n <= sizeof_ISC_TIMESTAMP ->
               (forall e, fst (memcpy 0 bytes n dst) <> Throw e) /\
               (sizeof_ISC_TIMESTAMP <= len dst ->
                fst (memcpy 0 bytes n dst) = Done tt)).
    { intros bytes n Hn Hn8. unfold memcpy. split.
      - intros e. destruct (_ && _); discriminate.
      - intros Hd.
        replace ((0 <=? n) && (n <=? len bytes) && (0 <=? 0)
                 && (0 + n <=? len dst)) with true; [reflexivity|].
        symmetry. rewrite !andb_true_iff, !Z.leb_le. lia. }
    unfold sizeof_ISC_TIME, sizeof_ISC_DATE in *.
    destruct (Z.eqb_spec (Z.land type (Z.lnot 1)) SQL_TIMESTAMP) as [E1|N1];
      [|destruct (Z.eqb_spec (Z.land type (Z.lnot 1)) SQL_TYPE_TIME)
          as [E2|N2];
        [|destruct (Z.eqb_spec (Z.land type (Z.lnot 1)) SQL_TYPE_DATE)
            as [E3|N3]; [|tauto]]].
    + destruct (isc_encode_timestamp t) as [date time].
      destruct (Hcpy (le_bytes 4 date ++ le_bytes 4 time) sizeof_ISC_TIMESTAMP)
        as [He Hd]; [vm_compute; discriminate | unfold sizeof_ISC_TIMESTAMP; lia |].
      repeat split; try assumption.
      * intros e. destruct (_ <=? _); discriminate.
      * intros Hs. apply Z.leb_le in Hs. now rewrite Hs.
    + destruct (Hcpy (le_bytes 4 (isc_encode_sql_time t)) 4)
        as [He Hd]; [vm_compute; discriminate | unfold sizeof_ISC_TIMESTAMP; lia |].
      repeat split; try assumption.
      * intros e. destruct (_ <=? _); discriminate.
      * unfold sizeof_ISC_TIMESTAMP. intros Hs.
        replace (4 <=? len src) with true; [reflexivity|].
        symmetry. apply Z.leb_le. lia.
    + destruct (Hcpy (le_bytes 4 (isc_encode_sql_date t)) 4)
        as [He Hd]; [vm_compute; discriminate | unfold sizeof_ISC_TIMESTAMP; lia |].
      repeat split; try assumption.
      * intros e. destruct (_ <=? _); discriminate.
      * unfold sizeof_ISC_TIMESTAMP. intros Hs.
        replace (4 <=? len src) with true; [reflexivity|].
        symmetry. apply Z.leb_le. lia.
Qed.

(** ** Firebird: parsing temporal text *)

Lemma len_cons {A} (x : A) (l : list A) : len (x :: l) = 1 + len l.
Proof. unfold len. cbn [List.length]. lia. Qed.

Lemma six_inv (r : list Z) :
  match six r with
  | Some (y, m, d, hh, mm, ss) => r = [y; m; d; hh; mm; ss]
  | None => (len r =? 6) = false
  end.
Proof.
  destruct r as [|y [|m [|d [|hh [|mm [|ss [|x r]]]]]]]; try reflexivity.
  cbn [six]. rewrite !len_cons. pose proof (len_nonneg r).
  apply Z.eqb_neq. lia.
Qed.

Lemma three_inv (r : list Z) :
  match three r with
  | Some (x, y, z) => r = [x; y; z]
  | None => (len r =? 3) = false
  end.
Proof.
  destruct r as [|x [|y [|z [|w r]]]]; try reflexivity.
  cbn [three]. rewrite !len_cons. pose proof (len_nonneg r).
  apply Z.eqb_neq. lia.
Qed.

Lemma date_time_branch (var : XSQLVAR) :
  wire_type var = SQL_TIMESTAMP \/ wire_type var = SQL_TYPE_DATE ->
  let t := Z.land (sqltype var) (Z.lnot 1) in
  (t =? SQL_VARYING) || (t =? SQL_TEXT) = false /\
  (t =? SQL_SHORT) = false /\ (t =? SQL_LONG) = false /\
  (t =? SQL_INT64) = false /\
  (t =? SQL_TIMESTAMP) || (t =? SQL_TYPE_DATE) = true.
Proof.
  unfold wire_type. intros [-> | ->]; repeat split; reflexivity.
Qed.

(** C4: on a timestamp or date column [setTextParam] tries the patterns
    date-space-time, date-T-time and date alone in that order; the first
    that matches decides the calendar value, a date alone giving midnight;
    on a time-only column it accepts hour:minute:second; when no pattern
    matches it throws "Could not parse timestamp value." and leaves the
    buffer as it was.  The patterns do accept the texts they stand for:
    numerals separated by [-], by [:], and by a space or a [T]. *)
Theorem setTextParam_temporal (s : list byte) (size : Z) (var : XSQLVAR)
    (buf : list byte) :
  (wire_type var = SQL_TIMESTAMP \/ wire_type var = SQL_TYPE_DATE ->
   setTextParam a s size var buf
   = match parse_date_time a s with
     | Some t => put_tm a t var buf
     | None =>
         (Throw (mk_soci_error "Could not parse timestamp value."), buf)
     end) /\
  (wire_type var = SQL_TYPE_TIME ->
   setTextParam a s size var buf
   = match parse_time a s with
     | Some t => put_tm a t var buf
     | None =>
         (Throw (mk_soci_error "Could not parse timestamp value."), buf)
     end) /\
  (16 <= ulong_bits a ->
   forall y m d hh mm ss,
     digits y -> digits m -> digits d ->
     digits hh -> digits mm -> digits ss ->
     parse_date_time a (date_text y m d ++ " "%byte :: time_text hh mm ss)
     = Some (calendar (value y) (value m) (value d)
               (value hh) (value mm) (value ss)) /\
     parse_date_time a (date_text y m d ++ "T"%byte :: time_text hh mm ss)
     = Some (calendar (value y) (value m) (value d)
               (value hh) (value mm) (value ss)) /\
     parse_date_time a (date_text y m d)
     = Some (calendar (value y) (value m) (value d) 0 0 0) /\
     parse_time a (time_text hh mm ss)
     = Some (time_of_day (value hh) (value mm) (value ss))).
Proof.
  split; [|split].
  3: { intros Hlong y m d hh mm ss Hy Hm Hd Hh Hmi Hs. repeat split.
       - now apply shape_date_space_time.
       - now apply shape_date_T_time.
       - now apply shape_date_alone.
       - now apply shape_time. }
  - intros Hty. unfold setTextParam, parse_date_time.
    destruct (date_time_branch var Hty) as (E1 & E2 & E3 & E4 & E5).
    cbv zeta in E1, E2, E3, E4, E5. rewrite E1, E2, E3, E4, E5.
    set (r1 := sscanf a s "%hu-%hu-%hu %hu:%hu:%hu").
    set (r2 := sscanf a s "%hu-%hu-%huT%hu:%hu:%hu").
    set (r3 := sscanf a s "%hu-%hu-%hu").
    clearbody r1 r2 r3.
    pose proof (six_inv r1) as H1.
    destruct (six r1) as [[[[[[y m] d] hh] mm] ss]|].
    { subst r1. reflexivity. }
    rewrite H1. cbn [negb].
    pose proof (six_inv r2) as H2.
    destruct (six r2) as [[[[[[y m] d] hh] mm] ss]|].
    { subst r2. reflexivity. }
    rewrite H2. cbn [negb].
    pose proof (three_inv r3) as H3.
    destruct (three r3) as [[[y m] d]|].
    { subst r3. reflexivity. }
    rewrite H3. reflexivity.
  - intros Hty. unfold setTextParam, parse_time.
    unfold wire_type in Hty. rewrite Hty.
    change ((SQL_TYPE_TIME =? SQL_VARYING) || (SQL_TYPE_TIME =? SQL_TEXT))
      with false.
    change (SQL_TYPE_TIME =? SQL_SHORT) with false.
    change (SQL_TYPE_TIME =? SQL_LONG) with false.
    change (SQL_TYPE_TIME =? SQL_INT64) with false.
    change ((SQL_TYPE_TIME =? SQL_TIMESTAMP) || (SQL_TYPE_TIME =? SQL_TYPE_DATE))
      with false.
    change (SQL_TYPE_TIME =? SQL_TYPE_TIME) with true. cbv iota.
    set (r := sscanf a s "%hu:%hu:%hu"). clearbody r.
    pose proof (three_inv r) as H.
    destruct (three r) as [[[hh mm] ss]|].
    { subst r. reflexivity. }
    rewrite H. reflexivity.
Qed.

End FirebirdProperties.

(** C2, as the specification words it, fails on a timestamp column: the
    buffer has the size of [std::tm], not of the engine's [ISC_TIMESTAMP]. *)
Lemma allocBuffer_not_sizing_rule :
  len (firebird.allocBuffer lp64 samples.zeroed
         (samples.column firebird.SQL_TIMESTAMP 8))
  <> spec.sizing_rule (samples.column firebird.SQL_TIMESTAMP 8).
Proof. vm_compute. discriminate. Qed.

(** The slot of a temporal column follows [sizeof(std::tm)] from one
    platform to the other. *)
Example allocBuffer_time_llp64 :
  firebird.allocBuffer_size llp64 (samples.column firebird.SQL_TYPE_TIME 4)
  = 36.
Proof. reflexivity. Qed.

Lemma allocBuffer_sizing_witness :
  len (firebird.allocBuffer lp64 samples.zeroed
         (samples.column firebird.SQL_TIMESTAMP 8)) = 56.
Proof.
  apply (allocBuffer_sizing lp64 samples.zeroed
           (samples.column firebird.SQL_TIMESTAMP 8)).
  - simpl. lia.
  - simpl. lia.
  - simpl. lia.
  - left. reflexivity.
Defined.

Lemma setTextParam_too_long_witness :
  firebird.setTextParam lp64 (IB := samples.packed_ibase)
    (CH := samples.no_decimal) (samples.bytes "abcdef") 6
    (samples.column firebird.SQL_TEXT 5) (samples.canary 8)
  = (Throw (mk_soci_error
       (firebird.too_long (samples.bytes "abcdef") 6
          (samples.column firebird.SQL_TEXT 5))),
     samples.canary 8).
Proof.
  apply setTextParam_too_long.
  - left. reflexivity.
  - simpl. lia.
  - simpl. lia.
  - simpl. lia.
Defined.

Lemma text_round_trip_witness :
  exists buf' padding,
    firebird.setTextParam lp64 (IB := samples.packed_ibase)
      (CH := samples.no_decimal) (samples.bytes "abc")
      (len (samples.bytes "abc")) (samples.column firebird.SQL_TEXT 5)
      (samples.canary 8) = (Done tt, buf') /\
    firebird.getTextParam (CH := samples.no_decimal)
      (spec.bound_to buf' (samples.column firebird.SQL_TEXT 5))
    = Done (samples.bytes "abc" ++ padding) /\
    len (samples.bytes "abc" ++ padding) = 5 /\
    Forall (fun b => b = " "%byte) padding.
Proof.
  apply (text_round_trip lp64 (samples.bytes "abc")
           (samples.column firebird.SQL_TEXT 5) (samples.canary 8)).
  - reflexivity.
  - simpl. lia.
  - simpl. lia.
  - vm_compute. discriminate.
  - vm_compute. discriminate.
Defined.

Lemma setTextParam_temporal_witness :
  firebird.setTextParam lp64 (IB := samples.packed_ibase)
    (CH := samples.no_decimal) (samples.bytes "2024-02-29") 10
    (samples.column firebird.SQL_TYPE_DATE 4) (samples.canary 56)
  = firebird.put_tm lp64 (IB := samples.packed_ibase)
      (spec.calendar 2024 2 29 0 0 0)
      (samples.column firebird.SQL_TYPE_DATE 4) (samples.canary 56)
  /\ spec.parse_date_time lp64
       (spec.date_text [2; 0; 2; 4] [0; 2] [2; 9]
        ++ "T"%byte :: spec.time_text [1; 3] [4; 5] [1; 0])
     = Some (spec.calendar 2024 2 29 13 45 10).
Proof.
  assert (two : forall p q, 0 <= p <= 9 -> 0 <= q <= 9 -> spec.digits [p; q]).
  { intros p q Hp Hq. split; [discriminate|]. split.
    - repeat constructor; lia.
    - unfold spec.value. cbn [fold_left]. lia. }
  assert (year : spec.digits [2; 0; 2; 4]).
  { split; [discriminate|]. split.
    - repeat constructor; lia.
    - vm_compute. reflexivity. }
  split.
  - rewrite (proj1 (setTextParam_temporal (IB := samples.packed_ibase)
                      (CH := samples.no_decimal) lp64
                      (samples.bytes "2024-02-29") 10
                      (samples.column firebird.SQL_TYPE_DATE 4)
                      (samples.canary 56)) (or_intror eq_refl)).
    reflexivity.
  - apply (proj2 (proj2 (setTextParam_temporal (IB := samples.packed_ibase)
                           (CH := samples.no_decimal) lp64 [] 0
                           (samples.column firebird.SQL_TYPE_DATE 4) []))
             ltac:(simpl; lia) [2; 0; 2; 4] [0; 2] [2; 9] [1; 3] [4; 5] [1; 0]
             year (two 0 2 ltac:(lia) ltac:(lia))
             (two 2 9 ltac:(lia) ltac:(lia))
             (two 1 3 ltac:(lia) ltac:(lia))
             (two 4 5 ltac:(lia) ltac:(lia))
             (two 1 0 ltac:(lia) ltac:(lia))).
Defined.

(** The four accepted shapes, and two inputs that match none or only a
    part of one. *)
Example parse_date_space_time :
  spec.parse_date_time lp64 (samples.bytes "2024-02-29 13:45:10")
  = Some (spec.calendar 2024 2 29 13 45 10).
Proof. reflexivity. Qed.

Example parse_date_T_time :
  spec.parse_date_time lp64 (samples.bytes "2024-02-29T13:45:10")
  = Some (spec.calendar 2024 2 29 13 45 10).
Proof. reflexivity. Qed.

Example parse_date_alone :
  spec.parse_date_time lp64 (samples.bytes "2024-02-29")
  = Some (spec.calendar 2024 2 29 0 0 0).
Proof. reflexivity. Qed.

Example parse_date_with_partial_time :
  spec.parse_date_time lp64 (samples.bytes "2024-02-29 13:45")
  = Some (spec.calendar 2024 2 29 0 0 0).
Proof. reflexivity. Qed.

Example parse_time_alone :
  spec.parse_time lp64 (samples.bytes "13:45:10")
  = Some (spec.time_of_day 13 45 10).
Proof. reflexivity. Qed.

Example parse_no_date :
  spec.parse_date_time lp64 (samples.bytes "13:45:10") = None
  /\ spec.parse_time lp64 (samples.bytes "noon") = None.
Proof. split; reflexivity. Qed.

Lemma tm_codec_type_check_witness :
  firebird.tmEncode (IB := samples.packed_ibase) firebird.SQL_TEXT
    firebird.tm_zero (samples.canary 8)
  = (Throw (mk_soci_error (firebird.unexpected_date_time firebird.SQL_TEXT)),
     samples.canary 8)
  /\ fst (firebird.tmEncode (IB := samples.packed_ibase)
            firebird.SQL_TYPE_DATE firebird.tm_zero (samples.canary 8))
     = Done tt.
Proof.
  split.
  - apply (proj1 (tm_codec_type_check (IB := samples.packed_ibase)
                    firebird.SQL_TEXT firebird.tm_zero (samples.canary 8)
                    (samples.canary 8))).
    unfold spec.temporal. vm_compute. intros [H | [H | H]]; discriminate H.
  - apply (proj2 (tm_codec_type_check (IB := samples.packed_ibase)
                    firebird.SQL_TYPE_DATE firebird.tm_zero (samples.canary 8)
                    (samples.canary 8))).
    + right. left. reflexivity.
    + vm_compute. discriminate.
Defined.

(** ** Firebird: reading a text blob *)

Section BlobProperties.
Import firebird.
Context {BB : blob_backend}.

Lemma memcpy_whole (src buf : list byte) :
  len src <= len buf ->
  memcpy 0 src (len src) buf = (Done tt, src ++ drop (len src) buf).
Proof.
  intros H. pose proof (memcpy_prefix src [] buf H) as P.
  now rewrite app_nil_r in P.
Qed.

Lemma len_take {A} (n : Z) (l : list A) :
  0 <= n -> len (take n l) = Z.min n (len l).
Proof.
  intros Hn. unfold take, len. rewrite length_firstn. lia.
Qed.

Lemma len_resize (n : Z) (out : list byte) :
  0 <= n -> len (resize n out) = n.
Proof.
  intros Hn. unfold resize. rewrite len_app, len_take, len_repeat by lia.
  pose proof (len_nonneg out). lia.
Qed.

Lemma drop_all {A} (l : list A) : drop (len l) l = [].
Proof. unfold drop, len. rewrite Nat2Z.id. apply skipn_all. Qed.

(** C7: when the blob delivers fewer bytes than the length it declared,
    [copy_from_blob] throws "Read N bytes instead of expected M ..." and so
    does not return the short value; when it delivers exactly the declared
    length, [copy_from_blob] returns normally with those bytes in [out]. *)
Theorem copy_from_blob_length_check (st_session : session)
    (buf out : list byte) (b1 b2 b3 : blob) (len_total : Z)
    (data : list byte) :
  sizeof_ISC_QUAD <= len buf ->
  assign (take sizeof_ISC_QUAD buf) (blob_ctor st_session) = (Done tt, b1) ->
  get_len b1 = (Done len_total, b2) ->
  read_from_start len_total b2 = (Done data, b3) ->
  (len data < len_total ->
   copy_from_blob st_session buf out
   = (Throw (mk_soci_error (short_read (len data) len_total)),
      data ++ drop (len data) (resize len_total out))) /\
  (len data = len_total ->
   copy_from_blob st_session buf out = (Done tt, data)).
Proof.
  intros Hbuf Hassign Hlen Hread.
  pose proof (len_nonneg data) as Hd.
  assert (Hrun : len data <= len_total ->
    copy_from_blob st_session buf out
    = (if negb (len data =? len_total)
       then Throw (mk_soci_error (short_read (len data) len_total))
       else Done tt,
       data ++ drop (len data) (resize len_total out))).
  { intros Hle. unfold copy_from_blob, copy_from_blob_body, bind, on_blob,
      on_out, ret, undefined, throw.
    apply Z.leb_le in Hbuf. rewrite Hbuf. cbn [fst snd].
    rewrite Hassign. cbn [fst snd]. rewrite Hlen. cbn [fst snd].
    rewrite Hread. cbn [fst snd].
    rewrite memcpy_whole by (rewrite len_resize; lia).
    destruct (negb (len data =? len_total)); reflexivity. }
  split.
  - intros Hlt. rewrite Hrun by lia.
    replace (len data =? len_total) with false; [reflexivity|].
    symmetry. apply Z.eqb_neq. lia.
  - intros Heq. rewrite Hrun by lia.
    assert (Hdrop : drop (len data) (resize len_total out) = []).
    { unfold drop. apply skipn_all2.
      pose proof (len_resize len_total out ltac:(lia)) as Hl.
      unfold len in *. lia. }
    rewrite Hdrop, app_nil_r.
    replace (len data =? len_total) with true; [reflexivity|].
    symmetry. now apply Z.eqb_eq.
Qed.

End BlobProperties.

Lemma copy_from_blob_length_check_witness :
  firebird.copy_from_blob (BB := samples.flaky_blob)
    (samples.bytes "hello, blob", 5) (samples.canary 8) []
  = (Throw (mk_soci_error (firebird.short_read 5 11)),
     samples.bytes "hello" ++ repeat x00 6)
  /\ firebird.copy_from_blob (BB := samples.flaky_blob)
       (samples.bytes "hello, blob", 11) (samples.canary 8) []
     = (Done tt, samples.bytes "hello, blob").
Proof.
  split.
  - apply (proj1 (copy_from_blob_length_check (BB := samples.flaky_blob)
             (samples.bytes "hello, blob", 5) (samples.canary 8) []
             (samples.bytes "hello, blob", 5) (samples.bytes "hello, blob", 5)
             (samples.bytes "hello, blob", 5) 11 (samples.bytes "hello")
             ltac:(vm_compute; discriminate) eq_refl eq_refl eq_refl)).
    vm_compute. reflexivity.
  - apply (proj2 (copy_from_blob_length_check (BB := samples.flaky_blob)
             (samples.bytes "hello, blob", 11) (samples.canary 8) []
             (samples.bytes "hello, blob", 11)
             (samples.bytes "hello, blob", 11)
             (samples.bytes "hello, blob", 11) 11
             (samples.bytes "hello, blob")
             ltac:(vm_compute; discriminate) eq_refl eq_refl eq_refl)).
    reflexivity.
Defined.

(** ** PostgreSQL: the socket timeout *)

Section TimeoutProperties.
Import postgresql.
Context {SK : sockets} {CI : cstrtoi_h}.

(** C9: a [tcp_user_timeout] value that parses as zero or as a negative
    integer is accepted and ignored, on every build: [set_tcp_user_timeout]
    returns normally, and neither the operating system nor the list of calls
    made to it has changed. *)
Theorem set_tcp_user_timeout_ignores_nonpositive (b : build) (sock : Z)
    (timeoutStr : string) (timeoutMs : Z) (n : net) :
  cstring_to_integer timeoutStr = Some timeoutMs ->
  timeoutMs <= 0 ->
  set_tcp_user_timeout b sock timeoutStr n = (Done tt, n).
Proof.
  intros Hparse Hle. unfold set_tcp_user_timeout. rewrite Hparse.
  destruct (Z.eqb_spec timeoutMs 0) as [E | N]; [reflexivity|].
  destruct (Z.ltb_spec timeoutMs 0) as [L | G]; [reflexivity | lia].
Qed.

End TimeoutProperties.

Lemma set_tcp_user_timeout_ignores_nonpositive_witness :
  postgresql.set_tcp_user_timeout (SK := samples.calm_sockets)
    (CI := samples.decimal_cstrtoi) postgresql.HAVE_TCP_USER_TIMEOUT 3 "-250"
    (samples.after_calls [])
  = (Done tt, samples.after_calls []).
Proof.
  apply (set_tcp_user_timeout_ignores_nonpositive
           (SK := samples.calm_sockets) (CI := samples.decimal_cstrtoi)
           postgresql.HAVE_TCP_USER_TIMEOUT 3 "-250" (-250)).
  - reflexivity.
  - lia.
Defined.

(** A positive value does reach the socket. *)
Example set_tcp_user_timeout_positive :
  postgresql.set_tcp_user_timeout (SK := samples.calm_sockets)
    (CI := samples.decimal_cstrtoi) postgresql.HAVE_TCP_USER_TIMEOUT 3 "250"
    (samples.after_calls [])
  = (Done tt,
     samples.after_calls
       [postgresql.Getsockname 3; postgresql.Setsockopt 3 6 18 250]).
Proof. reflexivity. Qed.

(** ** PostgreSQL: the connection check and the schema names *)

Section SessionProperties.
Import postgresql spec.
Context {PQ : libpq}.

(** C8: when the status is not [CONNECTION_OK], [is_connected] returns
    [false] and has sent nothing; otherwise it sends the one command
    [/* ping */] and returns whether the status is [CONNECTION_OK] after
    that command. *)
Theorem is_connected_round_trip (l : link) :
  (PQstatus (conn l) <> CONNECTION_OK -> is_connected l = (Done false, l)) /\
  (PQstatus (conn l) = CONNECTION_OK ->
   is_connected l
   = (Done (PQstatus (snd (PQexec "/* ping */" (conn l))) =? CONNECTION_OK),
      {| conn := snd (PQexec "/* ping */" (conn l));
         sent := sent l ++ ["/* ping */"%string] |})).
Proof.
  unfold is_connected, bind, status, exec, ret. split.
  - intros Hbad. apply Z.eqb_neq in Hbad. now rewrite Hbad.
  - intros Hok. rewrite Hok. cbn [negb Z.eqb CONNECTION_OK].
    destruct (PQexec "/* ping */" (conn l)) as [r c]. reflexivity.
Qed.

Lemma append_assoc (s1 s2 s3 : string) :
  ((s1 ++ s2) ++ s3 = s1 ++ (s2 ++ s3))%string.
Proof. induction s1 as [|c s1 IH]; simpl; [reflexivity | now rewrite IH]. Qed.

Lemma tokenize_quoted_segment (w rest schema : string)
    (schema_names : list string) :
  quote_free w ->
  tokenize (w ++ rest) true schema schema_names
  = tokenize rest true (schema ++ w) schema_names.
Proof.
  unfold quote_free. revert schema.
  induction w as [|c w IH]; intros schema Hfree.
  - simpl. f_equal. clear. induction schema as [|c s IH]; simpl; congruence.
  - simpl in Hfree. cbn [append tokenize].
    destruct (Ascii.eqb_spec c "034") as [-> | Hc]; [tauto|].
    rewrite andb_false_r, IH by tauto.
    now rewrite append_assoc.
Qed.

Lemma get_schema_names_path (l : link) :
  let r := fst (PQexec "SHOW search_path" (conn l)) in
  let l1 := {| conn := snd (PQexec "SHOW search_path" (conn l));
               sent := sent l ++ ["SHOW search_path"%string] |} in
  let content := if PQntuples r >? 0 then PQgetvalue r 0 0 else EmptyString in
  check_for_data r "search_path doesn't exist" = Done true ->
  get_schema_names l
  = resolve_all
      (split_search_path
         (if String.eqb content EmptyString then default_search_path
          else content)) l1.
Proof.
  intros r l1 content Hdata. subst r l1 content.
  unfold get_schema_names, bind, exec, checked.
  destruct (PQexec "SHOW search_path" (conn l)) as [r c]. cbn [fst snd] in *.
  now rewrite Hdata.
Qed.

Lemma resolve_plain (schema_name : string) (l : link) :
  schema_name <> "$user"%string ->
  resolve schema_name l = (Done (quote (conn l) schema_name), l).
Proof.
  intros Hne. unfold resolve, bind, ret.
  apply String.eqb_neq in Hne. now rewrite Hne.
Qed.

(** C6: a quote character toggles the quoted mode and is not part of any
    name; in quoted mode every other character, comma and space included, is
    appended to the current name; outside it a comma ends the current name
    and a space is skipped.  The path [{"a,b", c}] splits into [a,b] and
    [c], which [get_schema_names] returns, quoted, in that order. *)
Theorem tokenizer_quoted_mode :
  (forall rest quoted schema schema_names,
     tokenize (dquote ++ rest) quoted schema schema_names
     = tokenize rest (negb quoted) schema schema_names) /\
  (forall w rest schema schema_names,
     quote_free w ->
     tokenize (w ++ rest) true schema schema_names
     = tokenize rest true (schema ++ w) schema_names) /\
  (forall rest schema schema_names,
     tokenize ("," ++ rest) false schema schema_names
     = tokenize rest false EmptyString (schema_names ++ [schema]) /\
     tokenize (" " ++ rest) false schema schema_names
     = tokenize rest false schema schema_names) /\
  split_search_path quoted_comma_path = ["a,b"; "c"]%string /\
  (forall l : link,
     let r := fst (PQexec "SHOW search_path" (conn l)) in
     let c := snd (PQexec "SHOW search_path" (conn l)) in
     check_for_data r "search_path doesn't exist" = Done true ->
     PQntuples r > 0 ->
     PQgetvalue r 0 0 = quoted_comma_path ->
     get_schema_names l
     = (Done [quote c "a,b"; quote c "c"],
        {| conn := c; sent := sent l ++ ["SHOW search_path"%string] |})).
Proof.
  split; [|split; [|split; [|split]]].
  - reflexivity.
  - intros. now apply tokenize_quoted_segment.
  - intros. split; reflexivity.
  - reflexivity.
  - intros l r c Hdata Hrows Hpath.
    rewrite (get_schema_names_path l Hdata).
    fold r. fold c.
    replace (PQntuples r >? 0) with true
      by (symmetry; apply Z.gtb_lt; lia).
    rewrite Hpath.
    change (resolve_all ["a,b"; "c"]%string
              {| conn := c; sent := sent l ++ ["SHOW search_path"%string] |}
            = (Done [quote c "a,b"; quote c "c"],
               {| conn := c; sent := sent l ++ ["SHOW search_path"%string] |})).
    cbn [resolve_all]. unfold bind.
    rewrite !resolve_plain by discriminate. reflexivity.
Qed.

(** C10: when the reply to [SHOW search_path] has data but its value is
    empty, or it has no row, [get_schema_names] tokenizes the default path
    instead: with a server that reports the current user, the result is the
    quoted user name followed by the quoted [public]. *)
Theorem get_schema_names_default_path (l : link) :
  let r := fst (PQexec "SHOW search_path" (conn l)) in
  let c := snd (PQexec "SHOW search_path" (conn l)) in
  let u := fst (PQexec "SELECT current_user" c) in
  let c' := snd (PQexec "SELECT current_user" c) in
  check_for_data r "search_path doesn't exist" = Done true ->
  PQntuples r <= 0 \/ PQgetvalue r 0 0 = EmptyString ->
  check_for_data u "current_user is not defined" = Done true ->
  PQntuples u > 0 ->
  split_search_path default_search_path = ["$user"; "public"]%string /\
  get_schema_names l
  = (Done [quote c' (PQgetvalue u 0 0); quote c' "public"],
     {| conn := c';
        sent := sent l ++ ["SHOW search_path"; "SELECT current_user"]%string |}).
Proof.
  intros r c u c' Hdata Hempty Huser Hrows. split; [reflexivity|].
  rewrite (get_schema_names_path l Hdata). fold r. fold c.
  assert (Hcontent :
    (if PQntuples r >? 0 then PQgetvalue r 0 0 else EmptyString)
    = EmptyString).
  { destruct (PQntuples r >? 0) eqn:E; [|reflexivity].
    destruct Hempty as [H | H]; [|exact H].
    rewrite Z.gtb_ltb in E. apply Z.ltb_lt in E. lia. }
  rewrite Hcontent.
  change (resolve_all ["$user"; "public"]%string
            {| conn := c; sent := sent l ++ ["SHOW search_path"%string] |}
          = (Done [quote c' (PQgetvalue u 0 0); quote c' "public"],
             {| conn := c';
                sent := sent l
                        ++ ["SHOW search_path"; "SELECT current_user"]%string |})).
  cbn [resolve_all]. unfold bind at 1.
  assert (Hfirst :
    resolve "$user" {| conn := c; sent := sent l ++ ["SHOW search_path"%string] |}
    = (Done (quote c' (PQgetvalue u 0 0)),
       {| conn := c';
          sent := sent l
                  ++ ["SHOW search_path"; "SELECT current_user"]%string |})).
  { unfold resolve, bind, exec, checked, ret.
    rewrite String.eqb_refl. cbn [conn sent].
    subst u c'. destruct (PQexec "SELECT current_user" c) as [u c'].
    cbn [fst snd] in *. rewrite Huser.
    replace (PQntuples u >? 0) with true
      by (symmetry; apply Z.gtb_lt; lia).
    cbn [andb]. rewrite <- app_assoc. reflexivity. }
  rewrite Hfirst. unfold bind.
  rewrite resolve_plain by discriminate. reflexivity.
Qed.

End SessionProperties.

(** A connection whose cached status is good and which breaks on the next
    command: [is_connected] sends the ping and answers [false]. *)
Lemma is_connected_round_trip_witness :
  postgresql.is_connected (samples.toy_link "public" "alice" 1 [])
  = (Done false, samples.toy_link "public" "alice" 0 ["/* ping */"%string])
  /\ postgresql.is_connected (samples.toy_link "public" "alice" 0 [])
     = (Done false, samples.toy_link "public" "alice" 0 []).
Proof.
  split.
  - apply (proj2 (is_connected_round_trip (PQ := samples.toy_libpq)
                    (samples.toy_link "public" "alice" 1 []))).
    reflexivity.
  - apply (proj1 (is_connected_round_trip (PQ := samples.toy_libpq)
                    (samples.toy_link "public" "alice" 0 []))).
    vm_compute. discriminate.
Defined.

Lemma tokenizer_quoted_mode_witness :
  postgresql.get_schema_names
    (samples.toy_link spec.quoted_comma_path "alice" 5 [])
  = (Done ["'a,b'"; "'c'"]%string,
     samples.toy_link spec.quoted_comma_path "alice" 4
       ["SHOW search_path"%string])
  /\ postgresql.tokenize "a, b" true "x" []
     = (true, "xa, b"%string, []).
Proof.
  split.
  - apply (proj2 (proj2 (proj2 (proj2
             (tokenizer_quoted_mode (PQ := samples.toy_libpq)))))
             (samples.toy_link spec.quoted_comma_path "alice" 5 [])).
    + reflexivity.
    + vm_compute. reflexivity.
    + reflexivity.
  - apply (proj1 (proj2 (tokenizer_quoted_mode (PQ := samples.toy_libpq)))
             "a, b"%string EmptyString "x"%string []).
    unfold spec.quote_free. simpl.
    intros [H | [H | [H | [H | []]]]]; discriminate H.
Defined.

Lemma get_schema_names_default_path_witness :
  postgresql.get_schema_names (samples.toy_link "" "alice" 5 [])
  = (Done ["'alice'"; "'public'"]%string,
     samples.toy_link "" "alice" 3
       ["SHOW search_path"; "SELECT current_user"]%string).
Proof.
  apply (get_schema_names_default_path (PQ := samples.toy_libpq)
           (samples.toy_link "" "alice" 5 [])).
  - reflexivity.
  - right. reflexivity.
  - reflexivity.
  - vm_compute. reflexivity.
Defined.

(** * Further properties of the Firebird marshalling code *)

Lemma Z_of_byte_of_Z (z : Z) : Z_of_byte (byte_of_Z z) = z mod 256.
Proof.
  unfold Z_of_byte, byte_of_Z.
  pose proof (Z.mod_pos_bound z 256 ltac:(lia)) as Hm.
  destruct (Byte.of_N (Z.to_N (z mod 256))) as [b|] eqn:E.
  - apply Byte.to_of_N in E. rewrite E. apply Z2N.id. lia.
  - apply Byte.of_N_None_iff in E. lia.
Qed.

Lemma le_value_le_bytes (n : nat) (z : Z) :
  le_value (le_bytes n z) = z mod 2 ^ (8 * Z.of_nat n).
Proof.
  revert z. induction n as [|n IH]; intros z.
  - cbn [le_bytes le_value]. change (2 ^ (8 * Z.of_nat 0)) with 1.
    now rewrite Z.mod_1_r.
  - cbn [le_bytes le_value]. rewrite IH, Z_of_byte_of_Z, Z.shiftr_div_pow2 by lia.
    replace (8 * Z.of_nat (S n)) with (8 + 8 * Z.of_nat n) by lia.
    rewrite Z.pow_add_r by lia. change (2 ^ 8) with 256.
    assert (0 < 2 ^ (8 * Z.of_nat n)) by (apply Z.pow_pos_nonneg; lia).
    now rewrite Z.rem_mul_r by lia.
Qed.

Lemma len_le_bytes (n : nat) (z : Z) : len (le_bytes n z) = Z.of_nat n.
Proof.
  unfold len. f_equal. revert z.
  induction n as [|n IH]; intros z; cbn [le_bytes List.length]; congruence.
Qed.

Lemma to_signed_fits (bits z : Z) :
  0 < bits -> - 2 ^ (bits - 1) <= z < 2 ^ (bits - 1) ->
  to_signed bits (z mod 2 ^ bits) = z.
Proof.
  intros Hb Hz. unfold to_signed.
  assert (Hp : 2 ^ bits = 2 * 2 ^ (bits - 1)).
  { replace bits with (1 + (bits - 1)) at 1 by lia.
    rewrite Z.pow_add_r by lia. reflexivity. }
  assert (0 < 2 ^ (bits - 1)) by (apply Z.pow_pos_nonneg; lia).
  rewrite Z.mod_mod by lia.
  destruct (Z.ltb_spec (z mod 2 ^ bits) (2 ^ (bits - 1))) as [L | G].
  - destruct (Z.neg_nonneg_cases z) as [Hneg | Hpos].
    + assert (z mod 2 ^ bits = z + 2 ^ bits).
      { symmetry. apply Z.mod_unique with (q := -1); lia. }
      lia.
    + apply Z.mod_small. lia.
  - destruct (Z.neg_nonneg_cases z) as [Hneg | Hpos].
    + assert (z mod 2 ^ bits = z + 2 ^ bits).
      { symmetry. apply Z.mod_unique with (q := -1); lia. }
      lia.
    + rewrite Z.mod_small in G by lia. lia.
Qed.

Lemma memcpy_done (dst : Z) (src : list byte) (n : Z) (buf : list byte) :
  0 <= n <= len src -> 0 <= dst -> dst + n <= len buf ->
  memcpy dst src n buf
  = (Done tt, take dst buf ++ take n src ++ drop (dst + n) buf).
Proof.
  intros Hn Hd Hfit. unfold memcpy.
  replace ((0 <=? n) && (n <=? len src) && (0 <=? dst)
           && (dst + n <=? len buf)) with true; [reflexivity|].
  symmetry. rewrite !andb_true_iff, !Z.leb_le. lia.
Qed.

Lemma len_take_le {A} (n : Z) (l : list A) :
  0 <= n <= len l -> len (take n l) = n.
Proof.
  intros Hn. unfold take, len in *. rewrite length_firstn. lia.
Qed.

Lemma len_overwrite (dst n : Z) (src buf : list byte) :
  0 <= n <= len src -> 0 <= dst -> dst + n <= len buf ->
  len (take dst buf ++ take n src ++ drop (dst + n) buf) = len buf.
Proof.
  intros Hn Hd Hfit.
  rewrite !len_app, !len_take_le, len_drop by lia. lia.
Qed.

Lemma drop_overwrite (dst n k : Z) (src buf : list byte) :
  0 <= n <= len src -> 0 <= dst -> dst + n <= k -> k <= len buf ->
  drop k (take dst buf ++ take n src ++ drop (dst + n) buf) = drop k buf.
Proof.
  intros Hn Hd Hk Hfit.
  rewrite drop_app_ge by (rewrite len_take_le; lia).
  rewrite len_take_le by lia.
  rewrite drop_app_ge by (rewrite len_take_le; lia).
  rewrite len_take_le by lia.
  rewrite drop_drop by lia. f_equal. lia.
Qed.

Lemma take_exact {A} (n : Z) (l : list A) : len l = n -> take n l = l.
Proof.
  intros <-. unfold take, len. rewrite Nat2Z.id. apply firstn_all.
Qed.

Section FirebirdMore.
Import firebird spec props.
Context (a : abi) {IB : ibase} {CH : common_h}.

Lemma setTextParam_varying (s : list byte) (var : XSQLVAR) (buf : list byte) :
  wire_type var = SQL_VARYING ->
  0 <= sqllen var <= 32767 ->
  16 <= size_t_bits a ->
  len s <= sqllen var ->
  sizeof_short + len s <= len buf ->
  setTextParam a s (len s) var buf
  = (Done tt, le_bytes 2 (len s) ++ s ++ drop (sizeof_short + len s) buf).
Proof.
  intros Hty Hlen Hbits Hs Hbuf. unfold setTextParam.
  rewrite (text_or_varying var (or_intror Hty)).
  unfold wire_type in Hty. rewrite Hty.
  change (SQL_VARYING =? SQL_VARYING) with true. cbv iota.
  pose proof (len_nonneg s) as Hs0. unfold sizeof_short in *.
  rewrite to_unsigned_small by (apply short_fits_size_t; lia).
  destruct (len s >? sqllen var) eqn:E.
  { rewrite Z.gtb_ltb in E. apply Z.ltb_lt in E. lia. }
  rewrite to_signed_small by lia.
  unfold bind.
  rewrite memcpy_done
    by (rewrite ?len_le_bytes; change (Z.of_nat 2) with 2; lia).
  rewrite take_0, (take_exact 2 (le_bytes 2 (len s))) by apply len_le_bytes.
  cbn [app].
  rewrite memcpy_done;
    [| rewrite len_app; cbn; lia | lia
     | rewrite len_app, len_le_bytes, len_drop by lia;
       change (Z.of_nat 2) with 2; lia].
  rewrite (take_exact_app 2 (le_bytes 2 (len s))) by apply len_le_bytes.
  rewrite take_len_app.
  rewrite drop_app_ge
    by (rewrite len_le_bytes; change (Z.of_nat 2) with 2; lia).
  rewrite len_le_bytes. change (Z.of_nat 2) with 2.
  rewrite drop_drop by lia.
  replace (0 + 2 + (2 + len s - 2)) with (2 + len s) by lia.
  reflexivity.
Qed.

(** X1: a varying-text value comes back exactly as written: [setTextParam]
    stores the length as a two-byte prefix and the bytes after it, without
    padding, and [getTextParam] on that buffer returns those bytes. *)
Theorem varying_round_trip (s : list byte) (var : XSQLVAR) (buf : list byte) :
  wire_type var = SQL_VARYING ->
  0 <= sqllen var <= 32767 ->
  16 <= size_t_bits a ->
  len s <= sqllen var ->
  sizeof_short + len s <= len buf ->
  exists buf',
    setTextParam a s (len s) var buf = (Done tt, buf') /\
    take sizeof_short buf' = le_bytes 2 (len s) /\
    getTextParam (bound_to buf' var) = Done s.
Proof.
  intros Hty Hlen Hbits Hs Hbuf.
  pose proof (len_nonneg s) as Hs0.
  exists (le_bytes 2 (len s) ++ s ++ drop (sizeof_short + len s) buf).
  split; [now apply setTextParam_varying|]. split.
  - apply take_exact_app, len_le_bytes.
  - unfold getTextParam, bound_to. cbn [sqltype sqldata sqllen sqlscale].
    unfold wire_type in Hty. rewrite Hty.
    change (SQL_VARYING =? SQL_VARYING) with true. cbv iota.
    rewrite (take_exact_app sizeof_short (le_bytes 2 (len s)))
      by apply len_le_bytes.
    rewrite le_value_le_bytes. change (2 ^ (8 * Z.of_nat 2)) with 65536.
    rewrite Z.mod_small by lia. rewrite to_signed_small by lia.
    rewrite len_app, len_le_bytes. unfold sizeof_short.
    change (Z.of_nat 2) with 2.
    replace (2 <=? 2 + len (s ++ drop (2 + len s) buf)) with true
      by (symmetry; apply Z.leb_le;
          pose proof (len_nonneg (s ++ drop (2 + len s) buf)); lia).
    unfold std_string. rewrite !len_app, len_le_bytes.
    change (Z.of_nat 2) with 2.
    pose proof (len_nonneg (drop (2 + len s) buf)).
    replace ((0 <=? len s)
             && (2 + len s <=? 2 + (len s + len (drop (2 + len s) buf))))
      with true by (symmetry; rewrite andb_true_iff, !Z.leb_le; lia).
    rewrite (drop_app_ge 2) by (rewrite len_le_bytes; cbn; lia).
    rewrite len_le_bytes. change (2 - Z.of_nat 2) with 0.
    now rewrite drop_0, take_len_app.
Qed.

Lemma text_frame (s : list byte) (var : XSQLVAR) (buf : list byte) :
  text_type (wire_type var) ->
  0 <= sqllen var <= 32767 ->
  16 <= size_t_bits a ->
  len s <= sqllen var ->
  allocBuffer_size a var <= len buf ->
  exists buf',
    setTextParam a s (len s) var buf = (Done tt, buf') /\
    len buf' = len buf /\
    drop (allocBuffer_size a var) buf' = drop (allocBuffer_size a var) buf.
Proof.
  intros Hty Hlen Hbits Hs Hbuf. pose proof (len_nonneg s) as Hs0.
  unfold allocBuffer_size in *. fold (wire_type var) in *.
  destruct Hty as [Hty | Hty]; rewrite Hty in *.
  - change (SQL_TEXT =? SQL_VARYING) with false in *.
    change ((SQL_TEXT =? SQL_TIMESTAMP) || (SQL_TEXT =? SQL_TYPE_TIME)
            || (SQL_TEXT =? SQL_TYPE_DATE)) with false in *.
    cbv iota in *.
    rewrite to_unsigned_small in * by (apply short_fits_size_t; lia).
    eexists. split; [apply setTextParam_text; assumption|].
    split.
    + rewrite !len_app, len_repeat, len_drop by lia. lia.
    + rewrite app_assoc.
      rewrite drop_app_ge by (rewrite len_app, len_repeat; lia).
      rewrite len_app, len_repeat.
      replace (sqllen var - (len s + Z.of_nat (Z.to_nat (sqllen var - len s))))
        with 0 by lia.
      apply drop_0.
  - change (SQL_VARYING =? SQL_VARYING) with true in *. cbv iota in *.
    unfold sizeof_short in *.
    rewrite to_unsigned_small in * by (apply short_fits_size_t; lia).
    eexists. split; [apply setTextParam_varying; unfold sizeof_short; lia|].
    unfold sizeof_short. split.
    + rewrite !len_app, len_le_bytes, len_drop by lia.
      change (Z.of_nat 2) with 2. lia.
    + rewrite app_assoc.
      rewrite drop_app_ge
        by (rewrite len_app, len_le_bytes; change (Z.of_nat 2) with 2; lia).
      rewrite len_app, len_le_bytes. change (Z.of_nat 2) with 2.
      rewrite drop_drop by lia. f_equal. lia.
Qed.

(** X2: on a text column [setTextParam] stays inside the slot [allocBuffer]
    sizes for it: the buffer keeps its length and every byte after the slot
    keeps its value. *)
Theorem setTextParam_text_frame (s : list byte) (var : XSQLVAR)
    (buf : list byte) :
  text_type (wire_type var) ->
  0 <= sqllen var <= 32767 ->
  16 <= size_t_bits a ->
  len s <= sqllen var ->
  allocBuffer_size a var <= len buf ->
  exists buf',
    setTextParam a s (len s) var buf = (Done tt, buf') /\
    len buf' = len buf /\
    drop (allocBuffer_size a var) buf' = drop (allocBuffer_size a var) buf.
Proof. apply text_frame. Qed.

(** X3: wire types outside the supported lists are refused: [setTextParam]
    throws "Unexpected string type." without touching the buffer, and
    [getTextParam] throws "Unexpected string type" for every type that is
    neither text nor integer, the temporal types [setTextParam] accepts
    included. *)
Theorem unexpected_string_type (s : list byte) (size : Z) (var : XSQLVAR)
    (buf : list byte) :
  ~ text_type (wire_type var) ->
  ~ integer_type (wire_type var) ->
  (~ temporal (wire_type var) ->
   setTextParam a s size var buf
   = (Throw (mk_soci_error "Unexpected string type."), buf)) /\
  getTextParam var = Throw (mk_soci_error "Unexpected string type").
Proof.
  unfold text_type, integer_type, temporal, wire_type.
  intros Htext Hint.
  destruct (Z.eqb_spec (Z.land (sqltype var) (Z.lnot 1)) SQL_VARYING) as [|N1];
    [tauto|].
  destruct (Z.eqb_spec (Z.land (sqltype var) (Z.lnot 1)) SQL_TEXT) as [|N2];
    [tauto|].
  destruct (Z.eqb_spec (Z.land (sqltype var) (Z.lnot 1)) SQL_SHORT) as [|N3];
    [tauto|].
  destruct (Z.eqb_spec (Z.land (sqltype var) (Z.lnot 1)) SQL_LONG) as [|N4];
    [tauto|].
  destruct (Z.eqb_spec (Z.land (sqltype var) (Z.lnot 1)) SQL_INT64) as [|N5];
    [tauto|].
  split.
  - intros Htemp. unfold setTextParam.
    apply Z.eqb_neq in N1, N2, N3, N4, N5. rewrite N1, N2, N3, N4, N5.
    destruct (Z.eqb_spec (Z.land (sqltype var) (Z.lnot 1)) SQL_TIMESTAMP);
      [tauto|].
    destruct (Z.eqb_spec (Z.land (sqltype var) (Z.lnot 1)) SQL_TYPE_DATE);
      [tauto|].
    destruct (Z.eqb_spec (Z.land (sqltype var) (Z.lnot 1)) SQL_TYPE_TIME);
      [tauto|].
    reflexivity.
  - unfold getTextParam.
    apply Z.eqb_neq in N1, N2, N3, N4, N5. now rewrite N1, N2, N3, N4, N5.
Qed.

End FirebirdMore.

Section FirebirdTemporalMore.
Import firebird spec props.
Context (a : abi) {IB : ibase} {CH : common_h}.

Lemma setTextParam_parses (s : list byte) (size : Z) (var : XSQLVAR)
    (buf : list byte) :
  wire_type var = SQL_TIMESTAMP \/ wire_type var = SQL_TYPE_DATE ->
  setTextParam a s size var buf
  = match parse_date_time a s with
    | Some t => put_tm a t var buf
    | None => (Throw (mk_soci_error "Could not parse timestamp value."), buf)
    end.
Proof.
  intros Hty. unfold setTextParam, parse_date_time.
  destruct (date_time_branch var Hty) as (E1 & E2 & E3 & E4 & E5).
  cbv zeta in E1, E2, E3, E4, E5. rewrite E1, E2, E3, E4, E5.
  generalize (sscanf a s "%hu-%hu-%hu %hu:%hu:%hu").
  generalize (sscanf a s "%hu-%hu-%huT%hu:%hu:%hu").
  generalize (sscanf a s "%hu-%hu-%hu").
  intros r3 r2 r1.
  pose proof (six_inv r1) as H1.
  destruct (six r1) as [[[[[[y m] d] hh] mm] ss]|]; [now subst r1|].
  rewrite H1. cbn [negb].
  pose proof (six_inv r2) as H2.
  destruct (six r2) as [[[[[[y m] d] hh] mm] ss]|]; [now subst r2|].
  rewrite H2. cbn [negb].
  pose proof (three_inv r3) as H3.
  destruct (three r3) as [[[y m] d]|]; [now subst r3|].
  now rewrite H3.
Qed.

Lemma setTextParam_parses_time (s : list byte) (size : Z) (var : XSQLVAR)
    (buf : list byte) :
  wire_type var = SQL_TYPE_TIME ->
  setTextParam a s size var buf
  = match parse_time a s with
    | Some t => put_tm a t var buf
    | None => (Throw (mk_soci_error "Could not parse timestamp value."), buf)
    end.
Proof.
  intros Hty. unfold setTextParam, parse_time.
  unfold wire_type in Hty. rewrite Hty.
  generalize (sscanf a s "%hu:%hu:%hu"). intros r.
  pose proof (three_inv r) as H.
  destruct (three r) as [[[hh mm] ss]|]; [now subst r|].
  cbn. now rewrite H.
Qed.

Lemma len_tm_bytes (t : tm) : sizeof_tm a <= len (tm_bytes a t).
Proof.
  unfold tm_bytes. rewrite !len_app, !len_le_bytes, len_repeat. lia.
Qed.

Lemma put_tm_done (t : tm) (var : XSQLVAR) (buf : list byte) :
  temporal (wire_type var) ->
  sizeof_ISC_TIMESTAMP <= sizeof_tm a <= len buf ->
  exists buf',
    put_tm a t var buf = (Done tt, buf') /\ len buf' = len buf
    /\ drop (sizeof_tm a) buf' = drop (sizeof_tm a) buf.
Proof.
  intros Hty Hsz. unfold sizeof_ISC_TIMESTAMP in Hsz.
  pose proof (len_tm_bytes t) as Ht.
  unfold put_tm, bind. rewrite memcpy_done by lia.
  set (buf1 := take 0 buf ++ take (sizeof_tm a) (tm_bytes a t)
               ++ drop (0 + sizeof_tm a) buf).
  assert (Hl1 : len buf1 = len buf) by (apply len_overwrite; lia).
  assert (Hd1 : drop (sizeof_tm a) buf1 = drop (sizeof_tm a) buf)
    by (apply drop_overwrite; lia).
  assert (Hcpy : forall bytes n,
             len bytes = n -> 0 <= n <= 8 ->
             exists buf',
               memcpy 0 bytes n buf1 = (Done tt, buf')
               /\ len buf' = len buf
               /\ drop (sizeof_tm a) buf' = drop (sizeof_tm a) buf).
  { intros bytes n Hb Hn. eexists. split; [apply memcpy_done; lia|]. split.
    - rewrite len_overwrite by lia. exact Hl1.
    - rewrite drop_overwrite by lia. exact Hd1. }
  unfold tmEncode, temporal, wire_type in *.
  destruct Hty as [-> | [-> | ->]].
  - change (SQL_TIMESTAMP =? SQL_TIMESTAMP) with true. cbv iota.
    destruct (isc_encode_timestamp t) as [date time].
    apply Hcpy; [reflexivity | unfold sizeof_ISC_TIMESTAMP; lia].
  - change (SQL_TYPE_DATE =? SQL_TIMESTAMP) with false.
    change (SQL_TYPE_DATE =? SQL_TYPE_TIME) with false.
    change (SQL_TYPE_DATE =? SQL_TYPE_DATE) with true. cbv iota.
    apply Hcpy; [reflexivity | unfold sizeof_ISC_DATE; lia].
  - change (SQL_TYPE_TIME =? SQL_TIMESTAMP) with false.
    change (SQL_TYPE_TIME =? SQL_TYPE_TIME) with true. cbv iota.
    apply Hcpy; [reflexivity | unfold sizeof_ISC_TIME; lia].
Qed.

(** X4: a buffer from [allocBuffer] is large enough for whatever [setTextParam]
    writes on a text or temporal column: the call returns or throws, it
    never reads or writes outside an array, and the buffer keeps its
    length. *)
Theorem allocBuffer_suffices (heap : nat -> byte) (s : list byte)
    (var : XSQLVAR) :
  text_type (wire_type var) \/ temporal (wire_type var) ->
  0 <= sqllen var <= 32767 ->
  16 <= size_t_bits a ->
  sizeof_ISC_TIMESTAMP <= sizeof_tm a ->
  let buf := allocBuffer a heap var in
  fst (setTextParam a s (len s) var buf) <> Undefined /\
  len (snd (setTextParam a s (len s) var buf)) = len buf.
Proof.
  intros Hty Hlen Hbits Htm buf. unfold sizeof_ISC_TIMESTAMP in Htm.
  pose proof (len_nonneg s) as Hs0.
  assert (Hsize : 0 <= allocBuffer_size a var
                  /\ (temporal (wire_type var) ->
                      allocBuffer_size a var = sizeof_tm a)).
  { unfold allocBuffer_size. fold (wire_type var). unfold temporal, sizeof_short.
    repeat match goal with
           | |- context [Z.eqb ?x ?y] => destruct (Z.eqb_spec x y)
           end; cbn [orb];
      rewrite ?to_unsigned_small by (apply short_fits_size_t; lia);
      unfold SQL_VARYING, SQL_TIMESTAMP, SQL_TYPE_TIME, SQL_TYPE_DATE in *;
      split; try lia; intros [H | [H | H]]; lia. }
  destruct Hsize as [Hnn Htemp].
  pose proof (len_allocBuffer a heap var Hnn) as Hbuf. fold buf in Hbuf.
  destruct Hty as [Hty | Hty].
  - destruct (Z.le_gt_cases (len s) (sqllen var)) as [Hle | Hgt].
    + destruct (text_frame a s var buf Hty Hlen Hbits Hle
                  ltac:(lia)) as (buf' & -> & Hl & _).
      split; [discriminate | exact Hl].
    + unfold setTextParam. rewrite (text_or_varying var).
      2: { destruct Hty; [left | right]; assumption. }
      rewrite to_unsigned_small by (apply short_fits_size_t; lia).
      replace (len s >? sqllen var) with true
        by (symmetry; apply Z.gtb_lt; lia).
      split; [discriminate | reflexivity].
  - assert (Hput : forall t,
               fst (put_tm a t var buf) <> Undefined
               /\ len (snd (put_tm a t var buf)) = len buf).
    { intros t.
      destruct (put_tm_done t var buf Hty) as (buf' & -> & Hl & _).
      - unfold sizeof_ISC_TIMESTAMP. rewrite Hbuf, (Htemp Hty). lia.
      - split; [discriminate | exact Hl]. }
    destruct Hty as [Hty | [Hty | Hty]].
    + rewrite setTextParam_parses by (left; exact Hty).
      destruct (parse_date_time a s); [apply Hput|].
      split; [discriminate | reflexivity].
    + rewrite setTextParam_parses by (right; exact Hty).
      destruct (parse_date_time a s); [apply Hput|].
      split; [discriminate | reflexivity].
    + rewrite setTextParam_parses_time by exact Hty.
      destruct (parse_time a s); [apply Hput|].
      split; [discriminate | reflexivity].
Qed.

End FirebirdTemporalMore.

Section FirebirdCodecMore.
Import firebird spec props.
Context (a : abi) {IB : ibase} {CH : common_h}.

Lemma le_bytes_int (z : Z) :
  is_ISC_DATE z -> to_signed 32 (le_value (le_bytes 4 z)) = z.
Proof.
  intros Hz. rewrite le_value_le_bytes.
  change (8 * Z.of_nat 4) with 32. apply to_signed_fits; [lia|].
  exact Hz.
Qed.

Lemma le_bytes_unsigned (z : Z) :
  is_ISC_TIME z -> le_value (le_bytes 4 z) = z.
Proof.
  intros Hz. rewrite le_value_le_bytes.
  change (8 * Z.of_nat 4) with 32. apply Z.mod_small. exact Hz.
Qed.

Lemma encoded_then_decoded (bytes dst : list byte) (n : Z) :
  len bytes = n -> 0 <= n <= len dst ->
  exists dst',
    memcpy 0 bytes n dst = (Done tt, dst') /\
    take n dst' = bytes /\ n <= len dst'.
Proof.
  intros Hb Hn. eexists. split; [apply memcpy_done; lia|].
  rewrite take_0, (take_exact n bytes Hb). cbn [app]. split.
  - now apply take_exact_app.
  - rewrite len_app, len_drop by lia. lia.
Qed.

(** X5: [tmDecode] reads back what [tmEncode] stored: on a destination of at
    least eight bytes, for each of the three temporal types, [tmEncode]
    returns normally and decoding the bytes it wrote hands the engine's
    decoder exactly the packed value the engine's encoder produced. *)
Theorem tmDecode_reads_tmEncode (type : Z) (t t0 : tm) (dst : list byte) :
  sizeof_ISC_TIMESTAMP <= len dst ->
  (Z.land type (Z.lnot 1) = SQL_TIMESTAMP ->
   is_ISC_DATE (fst (isc_encode_timestamp t)) ->
   is_ISC_TIME (snd (isc_encode_timestamp t)) ->
   fst (tmEncode type t dst) = Done tt /\
   tmDecode type (snd (tmEncode type t dst)) t0
   = (Done tt, isc_decode_timestamp (isc_encode_timestamp t) t0)) /\
  (Z.land type (Z.lnot 1) = SQL_TYPE_TIME ->
   is_ISC_TIME (isc_encode_sql_time t) ->
   fst (tmEncode type t dst) = Done tt /\
   tmDecode type (snd (tmEncode type t dst)) t0
   = (Done tt, isc_decode_sql_time (isc_encode_sql_time t) t0)) /\
  (Z.land type (Z.lnot 1) = SQL_TYPE_DATE ->
   is_ISC_DATE (isc_encode_sql_date t) ->
   fst (tmEncode type t dst) = Done tt /\
   tmDecode type (snd (tmEncode type t dst)) t0
   = (Done tt, isc_decode_sql_date (isc_encode_sql_date t) t0)).
Proof.
  intros Hdst. unfold sizeof_ISC_TIMESTAMP in Hdst.
  unfold tmEncode, tmDecode. split; [|split].
  - intros -> Hd Ht.
    change (SQL_TIMESTAMP =? SQL_TIMESTAMP) with true. cbv iota.
    destruct (isc_encode_timestamp t) as [date time]. cbn [fst snd] in Hd, Ht.
    destruct (encoded_then_decoded (le_bytes 4 date ++ le_bytes 4 time) dst
                sizeof_ISC_TIMESTAMP) as (dst' & E & Htake & Hl);
      [reflexivity | unfold sizeof_ISC_TIMESTAMP; lia |].
    rewrite E. cbn [fst snd]. split; [reflexivity|].
    apply Z.leb_le in Hl. rewrite Hl.
    assert (H4 : take 4 dst' = le_bytes 4 date
                 /\ take 4 (drop 4 dst') = le_bytes 4 time).
    { rewrite <- (firstn_skipn 8 dst').
      change (firstn 8 dst') with (take sizeof_ISC_TIMESTAMP dst').
      rewrite Htake, <- app_assoc. split.
      - apply take_exact_app, len_le_bytes.
      - rewrite drop_app_ge by (rewrite len_le_bytes; cbn; lia).
        rewrite len_le_bytes. change (4 - Z.of_nat 4) with 0.
        rewrite drop_0. apply take_exact_app, len_le_bytes. }
    destruct H4 as [-> ->].
    now rewrite le_bytes_int, le_bytes_unsigned.
  - intros -> Ht.
    change (SQL_TYPE_TIME =? SQL_TIMESTAMP) with false.
    change (SQL_TYPE_TIME =? SQL_TYPE_TIME) with true. cbv iota.
    destruct (encoded_then_decoded (le_bytes 4 (isc_encode_sql_time t)) dst
                sizeof_ISC_TIME) as (dst' & E & Htake & Hl);
      [reflexivity | unfold sizeof_ISC_TIME; lia |].
    rewrite E. cbn [fst snd]. split; [reflexivity|].
    apply Z.leb_le in Hl. rewrite Hl.
    unfold sizeof_ISC_TIME in Htake. rewrite Htake.
    now rewrite le_bytes_unsigned.
  - intros -> Hd.
    change (SQL_TYPE_DATE =? SQL_TIMESTAMP) with false.
    change (SQL_TYPE_DATE =? SQL_TYPE_TIME) with false.
    change (SQL_TYPE_DATE =? SQL_TYPE_DATE) with true. cbv iota.
    destruct (encoded_then_decoded (le_bytes 4 (isc_encode_sql_date t)) dst
                sizeof_ISC_DATE) as (dst' & E & Htake & Hl);
      [reflexivity | unfold sizeof_ISC_DATE; lia |].
    rewrite E. cbn [fst snd]. split; [reflexivity|].
    apply Z.leb_le in Hl. rewrite Hl.
    unfold sizeof_ISC_DATE in Htake. rewrite Htake.
    now rewrite le_bytes_int.
Qed.

End FirebirdCodecMore.

Section NullableFlag.
Import firebird spec props.
Context (a : abi) {IB : ibase} {CH : common_h}.

Lemma mask_nullable (t : Z) :
  Z.land (Z.lor t 1) (Z.lnot 1) = Z.land t (Z.lnot 1).
Proof.
  apply Z.bits_inj'. intros n Hn.
  rewrite !Z.land_spec, Z.lor_spec, Z.lnot_spec by assumption.
  destruct n as [|p|p]; [| |lia].
  - cbn. now rewrite !andb_false_r.
  - replace (Z.testbit 1 (Z.pos p)) with false by (now destruct p).
    now rewrite orb_false_r.
Qed.

(** X6: the nullable flag of [sqltype] changes nothing: the buffer size, what
    [getTextParam] returns, and, on every column that is not handed to the
    decimal codec, what [setTextParam] does, are the same with the flag set
    as without it. *)
Theorem nullable_flag_ignored (s : list byte) (size : Z) (var : XSQLVAR)
    (buf : list byte) :
  allocBuffer_size a (nullable var) = allocBuffer_size a var /\
  getTextParam (nullable var) = getTextParam var /\
  (~ integer_type (wire_type var) ->
   setTextParam a s size (nullable var) buf = setTextParam a s size var buf).
Proof.
  split; [|split].
  - unfold allocBuffer_size, nullable. cbn [sqltype sqllen].
    now rewrite mask_nullable.
  - unfold getTextParam, nullable. cbn [sqltype sqllen sqldata sqlscale].
    now rewrite mask_nullable.
  - unfold integer_type, wire_type. intros Hint.
    unfold setTextParam, put_tm, tmEncode, too_long, nullable.
    cbn [sqltype sqllen sqldata sqlscale].
    rewrite !mask_nullable.
    set (m := Z.land (sqltype var) (Z.lnot 1)) in *.
    destruct (Z.eqb_spec m SQL_SHORT) as [|N1]; [tauto|].
    destruct (Z.eqb_spec m SQL_LONG) as [|N2]; [tauto|].
    destruct (Z.eqb_spec m SQL_INT64) as [|N3]; [tauto|].
    destruct (Z.eqb_spec m SQL_TIMESTAMP) as [->|N4]; [reflexivity|].
    destruct (Z.eqb_spec m SQL_TYPE_DATE) as [->|N5]; [reflexivity|].
    destruct (Z.eqb_spec m SQL_TYPE_TIME) as [->|N6]; [reflexivity|].
    reflexivity.
Qed.

End NullableFlag.

Section PrefixParsing.
Import firebird spec props.
Context (a : abi) {IB : ibase} {CH : common_h} (Hlong : 16 <= ulong_bits a).

Lemma c_str_space (rest : list byte) :
  c_str (" "%byte :: rest) = " "%byte :: c_str rest.
Proof. reflexivity. Qed.

Lemma skip_one_space (rest : list byte) :
  skip_space (" "%byte :: rest) = skip_space rest.
Proof. reflexivity. Qed.

Lemma time_text_app (hh mm ss : list Z) (rest : list byte) :
  time_text hh mm ss ++ rest
  = numeral hh ++ ":"%byte :: numeral mm ++ ":"%byte :: numeral ss ++ rest.
Proof.
  unfold time_text. rewrite <- app_assoc. cbn [app]. f_equal. f_equal.
  rewrite <- app_assoc. reflexivity.
Qed.

(** X7: the patterns match a prefix and stop: text after a complete timestamp is
    ignored, and a date followed by an incomplete time is taken as that date
    at midnight, the hour and minute already converted being dropped. *)
Theorem temporal_text_prefix (y m d hh mm ss : list Z) (rest : list byte)
    (size : Z) (var : XSQLVAR) (buf : list byte) :
  wire_type var = SQL_TIMESTAMP \/ wire_type var = SQL_TYPE_DATE ->
  digits y -> digits m -> digits d ->
  digits hh -> digits mm -> digits ss ->
  stops (c_str rest) ->
  setTextParam a
    (date_text y m d ++ " "%byte :: time_text hh mm ss ++ rest) size var buf
  = put_tm a (calendar (value y) (value m) (value d)
                (value hh) (value mm) (value ss)) var buf
  /\
  setTextParam a
    (date_text y m d ++ " "%byte :: numeral hh ++ ":"%byte :: numeral mm)
    size var buf
  = put_tm a (calendar (value y) (value m) (value d) 0 0 0) var buf.
Proof.
  intros Hty Hy Hm Hd Hh Hmi Hs Hrest.
  destruct (formats) as (F1 & F2 & F3 & _).
  split.
  - rewrite (setTextParam_parses a _ size var buf Hty).
    unfold parse_date_time, sscanf. rewrite F1.
    rewrite (sscanf_date a Hlong) by (assumption || reflexivity).
    rewrite c_str_space, match_space, skip_one_space.
    rewrite time_text_app, c_str_three by (assumption || reflexivity).
    rewrite skip_space_numeral by assumption.
    rewrite (convert_three a Hlong hh mm ss ":"%byte)
      by (assumption || reflexivity).
    reflexivity.
  - rewrite (setTextParam_parses a _ size var buf Hty).
    unfold parse_date_time, sscanf. rewrite F1, F2, F3.
    rewrite !(sscanf_date a Hlong) by (assumption || reflexivity).
    rewrite <- (app_nil_r (numeral mm)).
    assert (Hc : c_str (" "%byte :: numeral hh ++ ":"%byte :: numeral mm ++ [])
                 = " "%byte :: numeral hh ++ ":"%byte :: numeral mm ++ []).
    { destruct Hh as (_ & Hh & _), Hmi as (_ & Hmi & _).
      rewrite c_str_space, c_str_numeral by assumption.
      change (c_str (":"%byte :: numeral mm ++ []))
        with (":"%byte :: c_str (numeral mm ++ [])).
      now rewrite c_str_numeral by assumption. }
    rewrite Hc, match_space, skip_one_space.
    rewrite skip_space_numeral by assumption.
    rewrite (convert_numeral a Hlong) by (assumption || reflexivity).
    rewrite (match_literal a ":"%byte).
    rewrite (convert_numeral a Hlong) by (assumption || exact I).
    reflexivity.
Qed.

End PrefixParsing.

Ltac show_digits :=
  split; [discriminate | split; [repeat constructor; lia | reflexivity]].

Ltac refute_type :=
  let H := fresh "H" in
  vm_compute; intro H; repeat (destruct H as [H | H]); discriminate H.

Lemma varying_round_trip_witness :
  exists buf',
    firebird.setTextParam lp64 (IB := samples.packed_ibase)
      (CH := samples.no_decimal) (samples.bytes "hello")
      (len (samples.bytes "hello")) (samples.column firebird.SQL_VARYING 10)
      (samples.canary 12) = (Done tt, buf') /\
    take sizeof_short buf' = le_bytes 2 (len (samples.bytes "hello")) /\
    firebird.getTextParam (CH := samples.no_decimal)
      (spec.bound_to buf' (samples.column firebird.SQL_VARYING 10))
    = Done (samples.bytes "hello").
Proof.
  apply (varying_round_trip lp64 (samples.bytes "hello")
           (samples.column firebird.SQL_VARYING 10) (samples.canary 12)).
  - reflexivity.
  - simpl. lia.
  - simpl. lia.
  - vm_compute. discriminate.
  - vm_compute. discriminate.
Defined.

Lemma setTextParam_text_frame_witness :
  exists buf',
    firebird.setTextParam lp64 (IB := samples.packed_ibase)
      (CH := samples.no_decimal) (samples.bytes "abc")
      (len (samples.bytes "abc")) (samples.column firebird.SQL_TEXT 5)
      (samples.canary 8) = (Done tt, buf') /\
    len buf' = len (samples.canary 8) /\
    drop (firebird.allocBuffer_size lp64 (samples.column firebird.SQL_TEXT 5))
      buf'
    = drop (firebird.allocBuffer_size lp64
              (samples.column firebird.SQL_TEXT 5)) (samples.canary 8).
Proof.
  apply (setTextParam_text_frame lp64 (samples.bytes "abc")
           (samples.column firebird.SQL_TEXT 5) (samples.canary 8)).
  - left. reflexivity.
  - simpl. lia.
  - simpl. lia.
  - vm_compute. discriminate.
  - vm_compute. discriminate.
Defined.

Lemma unexpected_string_type_witness :
  firebird.setTextParam lp64 (IB := samples.packed_ibase)
    (CH := samples.no_decimal) (samples.bytes "abc") 3
    (samples.column firebird.SQL_BLOB 8) (samples.canary 8)
  = (Throw (mk_soci_error "Unexpected string type."), samples.canary 8)
  /\ firebird.getTextParam (CH := samples.no_decimal)
       (samples.column firebird.SQL_TIMESTAMP 8)
     = Throw (mk_soci_error "Unexpected string type").
Proof.
  split.
  - apply (unexpected_string_type lp64 (IB := samples.packed_ibase)
             (CH := samples.no_decimal) (samples.bytes "abc") 3
             (samples.column firebird.SQL_BLOB 8) (samples.canary 8));
      refute_type.
  - apply (unexpected_string_type lp64 (IB := samples.packed_ibase)
             (CH := samples.no_decimal) [] 0
             (samples.column firebird.SQL_TIMESTAMP 8) []);
      refute_type.
Defined.

Lemma allocBuffer_suffices_witness :
  fst (firebird.setTextParam lp64 (IB := samples.packed_ibase)
         (CH := samples.no_decimal) (samples.bytes "2024-02-29")
         (len (samples.bytes "2024-02-29"))
         (samples.column firebird.SQL_TIMESTAMP 8)
         (firebird.allocBuffer lp64 samples.zeroed
            (samples.column firebird.SQL_TIMESTAMP 8))) <> Undefined.
Proof.
  apply (allocBuffer_suffices lp64 (IB := samples.packed_ibase)
           (CH := samples.no_decimal) samples.zeroed
           (samples.bytes "2024-02-29")
           (samples.column firebird.SQL_TIMESTAMP 8)).
  - right. left. reflexivity.
  - simpl. lia.
  - simpl. lia.
  - vm_compute. discriminate.
Defined.

Lemma tmDecode_reads_tmEncode_witness :
  firebird.tmDecode (IB := samples.packed_ibase) firebird.SQL_TYPE_DATE
    (snd (firebird.tmEncode (IB := samples.packed_ibase)
            firebird.SQL_TYPE_DATE (spec.calendar 2024 2 29 0 0 0)
            (samples.canary 8)))
    firebird.tm_zero
  = (Done tt, firebird.tm_zero).
Proof.
  apply (proj2 (proj2 (tmDecode_reads_tmEncode (IB := samples.packed_ibase)
                         firebird.SQL_TYPE_DATE (spec.calendar 2024 2 29 0 0 0)
                         firebird.tm_zero (samples.canary 8)
                         ltac:(vm_compute; discriminate)))).
  - reflexivity.
  - vm_compute. split; [discriminate | reflexivity].
Defined.

Lemma nullable_flag_ignored_witness :
  firebird.setTextParam lp64 (IB := samples.packed_ibase)
    (CH := samples.no_decimal) (samples.bytes "abc") 3
    (props.nullable (samples.column firebird.SQL_TEXT 5)) (samples.canary 8)
  = firebird.setTextParam lp64 (IB := samples.packed_ibase)
      (CH := samples.no_decimal) (samples.bytes "abc") 3
      (samples.column firebird.SQL_TEXT 5) (samples.canary 8).
Proof.
  apply (nullable_flag_ignored lp64 (IB := samples.packed_ibase)
           (CH := samples.no_decimal) (samples.bytes "abc") 3
           (samples.column firebird.SQL_TEXT 5) (samples.canary 8)).
  refute_type.
Defined.

Lemma temporal_text_prefix_witness :
  firebird.setTextParam lp64 (IB := samples.packed_ibase)
    (CH := samples.no_decimal)
    (spec.date_text [2; 0; 2; 4] [0; 2] [2; 9]
     ++ " "%byte :: spec.numeral [1; 3] ++ ":"%byte :: spec.numeral [4; 5])
    16 (samples.column firebird.SQL_TIMESTAMP 8) (samples.canary 56)
  = firebird.put_tm lp64 (IB := samples.packed_ibase)
      (spec.calendar 2024 2 29 0 0 0)
      (samples.column firebird.SQL_TIMESTAMP 8) (samples.canary 56).
Proof.
  apply (proj2 (temporal_text_prefix lp64 (IB := samples.packed_ibase)
                  (CH := samples.no_decimal) ltac:(simpl; lia)
                  [2; 0; 2; 4] [0; 2] [2; 9] [1; 3] [4; 5] [0; 0] []
                  16 (samples.column firebird.SQL_TIMESTAMP 8)
                  (samples.canary 56) (or_introl eq_refl)
                  ltac:(show_digits) ltac:(show_digits) ltac:(show_digits)
                  ltac:(show_digits) ltac:(show_digits) ltac:(show_digits)
                  I)).
Defined.

(** * Further properties of the PostgreSQL session code *)

Section SchemaNamesMore.
Import postgresql spec props.
Context {PQ : libpq}.

Lemma append_nil_r (s : string) : (s ++ "")%string = s.
Proof. induction s as [|c s IH]; simpl; congruence. Qed.

Lemma create_list_from (strings : list string) (oss : string) :
  fold_left
    (fun (st : string * bool) (s : string) =>
       let '(oss, first) := st in
       ((if first then oss else oss ++ ", ") ++ s, false)%string)
    strings (oss, false)
  = ((oss ++ fold_right (fun s r => ", " ++ s ++ r) "" strings)%string, false).
Proof.
  revert oss. induction strings as [|s strings IH]; intros oss.
  - cbn [fold_left fold_right]. now rewrite append_nil_r.
  - cbn [fold_left fold_right]. rewrite IH.
    now rewrite !append_assoc.
Qed.

Lemma create_list_cons (s : string) (strings : list string) :
  create_list_of_strings (s :: strings)
  = (s ++ fold_right (fun s r => ", " ++ s ++ r) "" strings)%string.
Proof.
  unfold create_list_of_strings. cbn [fold_left].
  change (("" ++ s)%string) with s. now rewrite create_list_from.
Qed.

Lemma tokenize_plain (w rest schema : string) (schema_names : list string) :
  Forall plain_char (list_ascii_of_string w) ->
  tokenize (w ++ rest) false schema schema_names
  = tokenize rest false (schema ++ w) schema_names.
Proof.
  revert schema. induction w as [|c w IH]; intros schema Hw.
  - cbn [append]. now rewrite append_nil_r.
  - cbn [list_ascii_of_string] in Hw.
    pose proof (Forall_inv Hw) as (Hq & Hc & Hs).
    apply Forall_inv_tail in Hw.
    cbn [append tokenize].
    destruct (Ascii.eqb_spec c "034"); [contradiction|].
    destruct (Ascii.eqb_spec c ","); [contradiction|].
    destruct (Ascii.eqb_spec c " "); [contradiction|].
    cbn [orb andb]. rewrite IH by assumption.
    now rewrite append_assoc.
Qed.

Lemma tokenize_joined (strings : list string) (s : string)
    (schema_names : list string) :
  plain s -> Forall plain strings ->
  tokenize (s ++ fold_right (fun s r => ", " ++ s ++ r) "" strings)%string
    false "" schema_names
  = (false, last (s :: strings) EmptyString,
     schema_names ++ removelast (s :: strings)).
Proof.
  revert s schema_names.
  induction strings as [|s' strings IH]; intros s schema_names Hs Hall.
  - cbn [fold_right last removelast].
    rewrite tokenize_plain by apply Hs.
    cbn [tokenize append]. now rewrite app_nil_r.
  - pose proof (Forall_inv Hall) as Hs'. apply Forall_inv_tail in Hall.
    cbn [fold_right]. rewrite tokenize_plain by apply Hs.
    cbn [append tokenize]. change (Ascii.eqb "," "034") with false.
    change (Ascii.eqb " " "034") with false.
    change (Ascii.eqb "," ",") with true.
    change (Ascii.eqb " " ",") with false.
    change (Ascii.eqb " " " ") with true.
    cbn [orb andb negb].
    rewrite IH by assumption.
    change (last (s :: s' :: strings) EmptyString)
      with (last (s' :: strings) EmptyString).
    change (removelast (s :: s' :: strings))
      with (s :: removelast (s' :: strings)).
    now rewrite <- app_assoc.
Qed.

Lemma last_plain (s : string) (strings : list string) :
  plain s -> Forall plain strings ->
  last (s :: strings) EmptyString <> EmptyString.
Proof.
  revert s. induction strings as [|s' strings IH]; intros s Hs Hall.
  - apply Hs.
  - change (last (s :: s' :: strings) EmptyString)
      with (last (s' :: strings) EmptyString).
    apply IH; [exact (Forall_inv Hall) | exact (Forall_inv_tail Hall)].
Qed.

(** X8: what [create_list_of_strings] joins, the tokenizer of
    [get_schema_names] splits again: for names that are not empty and have
    no quote, comma or space in them, splitting the joined list gives the
    names back, in order. *)
Theorem split_joined_names (strings : list string) :
  Forall plain strings ->
  split_search_path (create_list_of_strings strings) = strings.
Proof.
  intros Hall. destruct strings as [|s strings]; [reflexivity|].
  pose proof (Forall_inv Hall) as Hs. apply Forall_inv_tail in Hall.
  rewrite create_list_cons. unfold split_search_path.
  rewrite tokenize_joined by assumption.
  pose proof (last_plain s strings Hs Hall) as Hlast.
  apply String.eqb_neq in Hlast. rewrite Hlast. cbn [negb app].
  symmetry. apply app_removelast_last. discriminate.
Qed.

End SchemaNamesMore.

Section TokenizerMore.
Import postgresql spec props.
Context {PQ : libpq}.

Lemma quote_free_snoc (schema : string) (c : ascii) :
  quote_free schema -> c <> "034"%char ->
  quote_free (schema ++ String c EmptyString).
Proof.
  unfold quote_free. intros Hs Hc.
  induction schema as [|c' schema IH]; cbn [append list_ascii_of_string In].
  - intros [H | []]. congruence.
  - cbn [list_ascii_of_string In] in Hs. intros [H | H]; [tauto|].
    apply IH; tauto.
Qed.

Lemma tokenize_quote_free (content : string) (quoted : bool)
    (schema : string) (schema_names : list string) :
  quote_free schema -> Forall quote_free schema_names ->
  let '(_, schema', schema_names') :=
    tokenize content quoted schema schema_names in
  quote_free schema' /\ Forall quote_free schema_names'.
Proof.
  revert quoted schema schema_names.
  induction content as [|c content IH]; intros quoted schema names Hs Hn.
  - cbn [tokenize]. now split.
  - cbn [tokenize].
    destruct (Ascii.eqb_spec c "034") as [-> | Hc]; [now apply IH|].
    destruct ((Ascii.eqb c "," || Ascii.eqb c " ") && negb quoted).
    + destruct (Ascii.eqb c ",").
      * apply IH; [intros [] | apply Forall_app; split; auto].
      * now apply IH.
    + apply IH; [now apply quote_free_snoc | assumption].
Qed.

(** X9: quote characters never reach a schema name: whatever the search path,
    matched or unmatched quotes included, no name the tokenizer returns has
    a quote character in it. *)
Theorem split_search_path_strips_quotes (search_path_content : string) :
  Forall quote_free (split_search_path search_path_content).
Proof.
  unfold split_search_path.
  pose proof (tokenize_quote_free search_path_content false EmptyString []
                ltac:(intros []) ltac:(constructor)) as H.
  destruct (tokenize search_path_content false EmptyString [])
    as [[quoted schema] names].
  destruct H as [Hs Hn].
  destruct (negb (String.eqb schema EmptyString)); [|assumption].
  apply Forall_app. split; [assumption | now constructor].
Qed.

Lemma quote_in_apostrophes (c : PGconn) (s : string) :
  in_apostrophes (quote c s).
Proof.
  unfold quote, in_apostrophes.
  destruct (PQescapeStringConn c s) as [escaped error_code].
  now eexists.
Qed.

Lemma resolve_in_apostrophes (schema_name : string) (l l' : link)
    (r : string) :
  resolve schema_name l = (Done r, l') -> in_apostrophes r.
Proof.
  unfold resolve, bind.
  match goal with
  | |- match ?X with _ => _ end = _ -> _ =>
      destruct X as [[name | e |] l1]; [| discriminate | discriminate]
  end.
  intros [= <- _]. apply quote_in_apostrophes.
Qed.

Lemma resolve_all_in_apostrophes (schema_names : list string) :
  forall (l l' : link) (rs : list string),
    resolve_all schema_names l = (Done rs, l') ->
    Forall in_apostrophes rs
    /\ List.length rs = List.length schema_names.
Proof.
  induction schema_names as [|n ns IH]; intros l l' rs.
  - cbn [resolve_all]. intros [= <- _]. now split.
  - cbn [resolve_all]. unfold bind at 1.
    destruct (resolve n l) as [[r | e |] l1] eqn:Er;
      [| discriminate | discriminate].
    unfold bind.
    destruct (resolve_all ns l1) as [[rs' | e |] l2] eqn:Ers;
      [| discriminate | discriminate].
    intros [= <- _]. destruct (IH _ _ _ Ers) as [Hall Hlen]. split.
    + constructor; [now apply (resolve_in_apostrophes n l l1) | assumption].
    + cbn [List.length]. now rewrite Hlen.
Qed.

(** X10: every name [get_schema_names] returns went through [quote]: whenever it
    returns, each entry of the list is a text between two apostrophes. *)
Theorem get_schema_names_quoted (l l' : link) (names : list string) :
  get_schema_names l = (Done names, l') ->
  Forall in_apostrophes names.
Proof.
  unfold get_schema_names, bind, exec, checked.
  destruct (PQexec "SHOW search_path" (conn l)) as [r c].
  destruct (check_for_data r "search_path doesn't exist") as [[|] | e |];
    [| | discriminate | discriminate].
  - intros H. now apply resolve_all_in_apostrophes in H.
  - intros [= <- _]. constructor.
Qed.

End TokenizerMore.

Lemma split_joined_names_witness :
  postgresql.split_search_path
    (postgresql.create_list_of_strings ["alice"; "public"; "sales"]%string)
  = ["alice"; "public"; "sales"]%string.
Proof.
  apply split_joined_names.
  repeat constructor; try discriminate;
    vm_compute; intro H; discriminate H.
Defined.

Lemma get_schema_names_quoted_witness :
  Forall props.in_apostrophes ["'alice'"; "'public'"]%string.
Proof.
  apply (get_schema_names_quoted (PQ := samples.toy_libpq)
           (samples.toy_link "" "alice" 5 [])
           (samples.toy_link "" "alice" 3
              ["SHOW search_path"; "SELECT current_user"]%string)).
  reflexivity.
Defined.

Section TimeoutMore.
Import postgresql.
Context {SK : sockets} {CI : cstrtoi_h}.

(** X11: under Windows a positive timeout in milliseconds reaches the socket as
    [TCP_MAXRT] in whole seconds, rounded to the nearest second and never
    less than one; the call returns normally exactly when [setsockopt]
    reports success. *)
Theorem windows_timeout_in_seconds (sock : Z) (timeoutStr : string)
    (timeoutMs : Z) (n : net) :
  cstring_to_integer timeoutStr = Some timeoutMs ->
  0 < timeoutMs <= INT_MAX - MS_PER_SEC / 2 ->
  exists timeoutSec,
    net_calls (snd (set_tcp_user_timeout WIN32 sock timeoutStr n))
    = net_calls n ++ [Setsockopt sock IPPROTO_TCP TCP_MAXRT timeoutSec] /\
    1 <= timeoutSec /\
    (MS_PER_SEC / 2 <= timeoutMs ->
     MS_PER_SEC * timeoutSec - MS_PER_SEC / 2 <= timeoutMs
     < MS_PER_SEC * timeoutSec + MS_PER_SEC / 2) /\
    (fst (set_tcp_user_timeout WIN32 sock timeoutStr n) = Done tt <->
     fst (setsockopt sock IPPROTO_TCP TCP_MAXRT timeoutSec (net_os n)) = 0).
Proof.
  unfold INT_MAX, MS_PER_SEC. change (1000 / 2) with 500.
  intros Hparse Hms.
  exists (if (timeoutMs + 500) / 1000 =? 0 then 1
          else (timeoutMs + 500) / 1000).
  unfold set_tcp_user_timeout. rewrite Hparse.
  destruct (Z.eqb_spec timeoutMs 0); [lia|].
  destruct (Z.ltb_spec timeoutMs 0); [lia|].
  unfold INT_MAX, MS_PER_SEC. change (1000 / 2) with 500.
  destruct (timeoutMs + 500 >? 2147483647) eqn:E.
  { rewrite Z.gtb_ltb in E. apply Z.ltb_lt in E. lia. }
  set (timeoutSec := if (timeoutMs + 500) / 1000 =? 0 then 1
                     else (timeoutMs + 500) / 1000).
  unfold bind, call_setsockopt.
  destruct (setsockopt sock IPPROTO_TCP TCP_MAXRT timeoutSec (net_os n))
    as [rc o] eqn:Ecall.
  cbn [fst snd].
  pose proof (Z.div_mod (timeoutMs + 500) 1000 ltac:(lia)) as Hdiv.
  pose proof (Z.mod_pos_bound (timeoutMs + 500) 1000 ltac:(lia)) as Hmod.
  assert (Hsec : 1 <= timeoutSec
                 /\ (500 <= timeoutMs -> timeoutSec = (timeoutMs + 500) / 1000)).
  { subst timeoutSec.
    destruct (Z.eqb_spec ((timeoutMs + 500) / 1000) 0) as [E0 | N0].
    - split; [lia|]. intros Hge. rewrite E0 in Hdiv. lia.
    - split; [|reflexivity].
      assert (0 <= (timeoutMs + 500) / 1000) by (apply Z.div_pos; lia). lia. }
  destruct Hsec as [H1 Hround].
  split; [destruct (negb (rc =? 0)); reflexivity|].
  split; [exact H1|].
  split; [intros Hge; rewrite (Hround Hge); lia|].
  destruct (Z.eqb_spec rc 0) as [-> | Hrc]; cbn [negb fst].
  - split; reflexivity.
  - split; [discriminate | contradiction].
Qed.

(** X12: where [TCP_USER_TIMEOUT] exists a positive timeout is set in
    milliseconds, unchanged, after asking for the socket's address; on a
    Unix-domain socket nothing is set and the call returns normally. *)
Theorem linux_timeout_by_family (sock : Z) (timeoutStr : string)
    (timeoutMs : Z) (n : net) :
  cstring_to_integer timeoutStr = Some timeoutMs ->
  0 < timeoutMs ->
  fst (fst (getsockname sock (net_os n))) = 0 ->
  let family := snd (fst (getsockname sock (net_os n))) in
  let result := set_tcp_user_timeout HAVE_TCP_USER_TIMEOUT sock timeoutStr n in
  (family = AF_UNIX ->
   fst result = Done tt /\
   net_calls (snd result) = net_calls n ++ [Getsockname sock]) /\
  (family <> AF_UNIX ->
   net_calls (snd result)
   = net_calls n
     ++ [Getsockname sock;
         Setsockopt sock IPPROTO_TCP TCP_USER_TIMEOUT timeoutMs]).
Proof.
  intros Hparse Hms Hrc family result. subst family result.
  unfold set_tcp_user_timeout. rewrite Hparse.
  destruct (Z.eqb_spec timeoutMs 0); [lia|].
  destruct (Z.ltb_spec timeoutMs 0); [lia|].
  unfold bind, call_getsockname, call_setsockopt.
  destruct (getsockname sock (net_os n)) as [[rc family] o].
  cbn [fst snd] in *. subst rc. cbn [negb Z.eqb].
  split.
  - intros ->. rewrite Z.eqb_refl. now split.
  - intros Hfam. apply Z.eqb_neq in Hfam. rewrite Hfam.
    cbn [net_os net_calls].
    destruct (setsockopt sock IPPROTO_TCP TCP_USER_TIMEOUT timeoutMs o)
      as [rc o'].
    destruct (negb (rc =? 0)); cbn [snd net_calls];
      now rewrite <- app_assoc.
Qed.

(** X13: whatever the platform, a value that is not an integer is refused with
    "Invalid value for tcp_user_timeout connection option" before any socket
    call; and on a platform with neither socket option every integer is
    accepted and nothing is done with it. *)
Theorem timeout_validated_first (b : build) (sock : Z) (timeoutStr : string)
    (n : net) :
  (cstring_to_integer timeoutStr = None ->
   set_tcp_user_timeout b sock timeoutStr n
   = (Throw (mk_soci_error (invalid_timeout timeoutStr)), n)) /\
  (cstring_to_integer timeoutStr <> None ->
   set_tcp_user_timeout NEITHER sock timeoutStr n = (Done tt, n)).
Proof.
  unfold set_tcp_user_timeout. split.
  - intros ->. reflexivity.
  - destruct (cstring_to_integer timeoutStr) as [ms|]; [intros _ | congruence].
    destruct (ms =? 0); [reflexivity|].
    destruct (ms <? 0); reflexivity.
Qed.

End TimeoutMore.

Lemma windows_timeout_in_seconds_witness :
  exists timeoutSec,
    postgresql.net_calls
      (snd (postgresql.set_tcp_user_timeout (SK := samples.calm_sockets)
              (CI := samples.decimal_cstrtoi) postgresql.WIN32 3 "2600"
              (samples.after_calls [])))
    = postgresql.net_calls (samples.after_calls [])
      ++ [postgresql.Setsockopt 3 postgresql.IPPROTO_TCP postgresql.TCP_MAXRT
            timeoutSec] /\
    1 <= timeoutSec /\
    (postgresql.MS_PER_SEC / 2 <= 2600 ->
     postgresql.MS_PER_SEC * timeoutSec - postgresql.MS_PER_SEC / 2 <= 2600
     < postgresql.MS_PER_SEC * timeoutSec + postgresql.MS_PER_SEC / 2) /\
    (fst (postgresql.set_tcp_user_timeout (SK := samples.calm_sockets)
            (CI := samples.decimal_cstrtoi) postgresql.WIN32 3 "2600"
            (samples.after_calls [])) = Done tt <->
     fst (postgresql.setsockopt (sockets := samples.calm_sockets) 3
            postgresql.IPPROTO_TCP postgresql.TCP_MAXRT timeoutSec
            (postgresql.net_os (samples.after_calls []))) = 0).
Proof.
  apply (windows_timeout_in_seconds (SK := samples.calm_sockets)
           (CI := samples.decimal_cstrtoi) 3 "2600" 2600
           (samples.after_calls [])).
  - reflexivity.
  - vm_compute. split; [reflexivity | discriminate].
Defined.

Lemma linux_timeout_by_family_witness :
  postgresql.net_calls
    (snd (postgresql.set_tcp_user_timeout (SK := samples.calm_sockets)
            (CI := samples.decimal_cstrtoi) postgresql.HAVE_TCP_USER_TIMEOUT
            3 "2600" (samples.after_calls [])))
  = postgresql.net_calls (samples.after_calls [])
    ++ [postgresql.Getsockname 3;
        postgresql.Setsockopt 3 postgresql.IPPROTO_TCP
          postgresql.TCP_USER_TIMEOUT 2600].
Proof.
  apply (proj2 (linux_timeout_by_family (SK := samples.calm_sockets)
                  (CI := samples.decimal_cstrtoi) 3 "2600" 2600
                  (samples.after_calls []) eq_refl ltac:(lia) eq_refl)).
  vm_compute. discriminate.
Defined.

Lemma timeout_validated_first_witness :
  postgresql.set_tcp_user_timeout (SK := samples.calm_sockets)
    (CI := samples.decimal_cstrtoi) postgresql.WIN32 3 "soon"
    (samples.after_calls [])
  = (Throw (mk_soci_error (postgresql.invalid_timeout "soon")),
     samples.after_calls []).
Proof.
  apply (timeout_validated_first (SK := samples.calm_sockets)
           (CI := samples.decimal_cstrtoi) postgresql.WIN32 3 "soon"
           (samples.after_calls [])).
  reflexivity.
Defined.

(** ** Decimal numerals of bounded integers *)

Lemma nztail_D0 (d : Decimal.uint) :
  DecimalFacts.nztail d <> Decimal.Nil ->
  DecimalFacts.nztail (Decimal.D0 d) = Decimal.D0 (DecimalFacts.nztail d).
Proof.
  intros H. cbn [DecimalFacts.nztail].
  destruct (DecimalFacts.nztail d); congruence.
Qed.

Ltac digit_case d IH Hnz :=
  cbn [DecimalFacts.nztail DecimalPos.Unsigned.usize DecimalPos.Unsigned.of_lu];
  rewrite N.pow_succ_r';
  destruct (Decimal.uint_eq_dec (DecimalFacts.nztail d) Decimal.Nil) as [E | N];
  [rewrite E; cbn [DecimalPos.Unsigned.usize]; rewrite N.pow_0_r; lia | specialize (IH N); lia].

Lemma pow_usize_le (d : Decimal.uint) :
  DecimalFacts.nztail d <> Decimal.Nil ->
  (10 ^ DecimalPos.Unsigned.usize (DecimalFacts.nztail d)
   <= 10 * DecimalPos.Unsigned.of_lu d)%N.
Proof.
  induction d as [|d IH|d IH|d IH|d IH|d IH|d IH|d IH|d IH|d IH|d IH];
    intros Hnz.
  - exfalso. now apply Hnz.
  - destruct (Decimal.uint_eq_dec (DecimalFacts.nztail d) Decimal.Nil) as [E | N].
    + exfalso. apply Hnz. cbn [DecimalFacts.nztail]. now rewrite E.
    + rewrite (nztail_D0 d N). specialize (IH N).
      cbn [DecimalPos.Unsigned.usize DecimalPos.Unsigned.of_lu].
      rewrite N.pow_succ_r'. lia.
  - digit_case d IH Hnz.
  - digit_case d IH Hnz.
  - digit_case d IH Hnz.
  - digit_case d IH Hnz.
  - digit_case d IH Hnz.
  - digit_case d IH Hnz.
  - digit_case d IH Hnz.
  - digit_case d IH Hnz.
  - digit_case d IH Hnz.
Qed.

Lemma usize_nb_digits (d : Decimal.uint) :
  DecimalPos.Unsigned.usize d = N.of_nat (Decimal.nb_digits d).
Proof.
  induction d; cbn [DecimalPos.Unsigned.usize Decimal.nb_digits];
    rewrite ?IHd; lia.
Qed.

Lemma nb_digits_bound (p : positive) :
  (N.pos p < 10 ^ 10)%N ->
  (Decimal.nb_digits (Pos.to_uint p) <= 10)%nat.
Proof.
  intros Hp.
  set (L := Pos.to_little_uint p).
  assert (H1 : DecimalPos.Unsigned.of_lu L = N.pos p).
  { pose proof (DecimalPos.Unsigned.of_to p) as H.
    rewrite DecimalPos.Unsigned.of_uint_alt in H.
    unfold Pos.to_uint in H. now rewrite DecimalFacts.rev_rev in H. }
  assert (Hnz : DecimalFacts.nztail L <> Decimal.Nil).
  { intros E. apply DecimalPos.Unsigned.of_lu_0 in E. rewrite H1 in E.
    discriminate E. }
  assert (H2 : DecimalFacts.nztail L = L).
  { pose proof (DecimalPos.Unsigned.to_of_lu L) as H. rewrite H1 in H.
    cbn [DecimalPos.Unsigned.to_lu] in H. fold L in H.
    unfold DecimalFacts.lnorm in H.
    destruct (DecimalFacts.nztail L); congruence. }
  pose proof (pow_usize_le L Hnz) as Hpow. rewrite H2, H1 in Hpow.
  unfold Pos.to_uint. fold L. rewrite DecimalFacts.nb_digits_rev.
  rewrite usize_nb_digits in Hpow.
  assert (Hlt : (10 ^ N.of_nat (Decimal.nb_digits L) < 10 ^ 11)%N).
  { change (10 ^ 11)%N with (10 * 10 ^ 10)%N. lia. }
  apply N.pow_lt_mono_r_iff in Hlt; lia.
Qed.

Lemma length_string_of_uint (d : Decimal.uint) :
  String.length (NilEmpty.string_of_uint d) = Decimal.nb_digits d.
Proof.
  induction d; cbn [NilEmpty.string_of_uint String.length Decimal.nb_digits];
    congruence.
Qed.

Lemma length_dec (n : Z) :
  0 <= n < 10 ^ 10 -> (String.length (dec n) <= 10)%nat.
Proof.
  intros Hn. unfold dec. destruct n as [|p|p]; [cbn; lia | | lia].
  cbn [Z.to_int NilZero.string_of_int]. unfold NilZero.string_of_uint.
  assert (Hb : (Decimal.nb_digits (Pos.to_uint p) <= 10)%nat).
  { apply nb_digits_bound. change (10 ^ 10)%N with (Z.to_N (10 ^ 10)). lia. }
  pose proof (length_string_of_uint (Pos.to_uint p)) as Hl.
  destruct (Pos.to_uint p); cbn [String.length]; lia.
Qed.

Lemma dec_inj (n m : Z) : dec n = dec m -> n = m.
Proof.
  unfold dec. intros H. apply DecimalZ.to_int_inj.
  assert (Hnn : forall z, Z.to_int z <> Decimal.Pos Decimal.Nil
                          /\ Z.to_int z <> Decimal.Neg Decimal.Nil).
  { intros [|p|p]; cbn [Z.to_int]; split; try discriminate;
      intros [= E]; now apply (DecimalPos.Unsigned.to_uint_nonnil p). }
  pose proof (NilZero.isi (Z.to_int n) (proj1 (Hnn n)) (proj2 (Hnn n))) as Hn.
  pose proof (NilZero.isi (Z.to_int m) (proj1 (Hnn m)) (proj2 (Hnn m))) as Hm.
  rewrite H in Hn. congruence.
Qed.

Lemma substring_whole (s : string) (n : nat) :
  (String.length s <= n)%nat -> substring 0 n s = s.
Proof.
  revert n. induction s as [|c s IH]; intros n Hn.
  - now destruct n.
  - destruct n as [|n]; cbn [String.length] in Hn; [lia|].
    cbn [substring]. f_equal. apply IH. lia.
Qed.

Section ShutdownAndNames.
Import postgresql.
Context {PQ : libpq} {FILE : Type}.

(** X14: [clean_up] releases each handle once: after it both members are null,
    [PQfinish] and [fclose] have been called, in that order, on exactly the
    handles that were not null, and a second [clean_up] changes nothing. *)
Theorem clean_up_once (h : handles (FILE := FILE)) :
  conn_ (clean_up h) = None /\
  traceFile_ (clean_up h) = None /\
  released (clean_up h)
  = released h
    ++ match conn_ h with Some c => [Finished c] | None => [] end
    ++ match traceFile_ h with Some f => [Closed f] | None => [] end /\
  clean_up (clean_up h) = clean_up h.
Proof.
  destruct h as [[c|] [f|] log]; unfold clean_up; cbn;
    rewrite <- ?app_assoc, ?app_nil_r; repeat split; reflexivity.
Qed.

(** X15: statement names are never cut short and never repeat: for a counter in
    the range of a session that started at zero, the name is [st_]
    followed by the decimal digits of the incremented counter, and two
    different counters give two different names. *)
Theorem statement_names_unique (c1 c2 : Z) :
  0 <= c1 < INT_MAX -> 0 <= c2 < INT_MAX -> c1 <> c2 ->
  get_next_statement_name c1
  = (Done ("st_" ++ dec (c1 + 1))%string, c1 + 1) /\
  get_next_statement_name c2
  = (Done ("st_" ++ dec (c2 + 1))%string, c2 + 1) /\
  ("st_" ++ dec (c1 + 1))%string <> ("st_" ++ dec (c2 + 1))%string.
Proof.
  unfold INT_MAX. intros H1 H2 Hne.
  assert (Hname : forall c, 0 <= c < 2147483647 ->
            get_next_statement_name c
            = (Done ("st_" ++ dec (c + 1))%string, c + 1)).
  { intros c Hc. unfold get_next_statement_name, INT_MAX.
    destruct (c + 1 >? 2147483647) eqn:E.
    { rewrite Z.gtb_ltb in E. apply Z.ltb_lt in E. lia. }
    unfold snprintf_st. rewrite substring_whole; [reflexivity|].
    pose proof (length_dec (c + 1)) as Hl.
    cbn [append String.length]. change (Z.to_nat (20 - 1)) with 19%nat.
    assert (0 <= c + 1 < 10 ^ 10) by (change (10 ^ 10) with 10000000000; lia).
    specialize (Hl H). lia. }
  split; [now apply Hname|]. split; [now apply Hname|].
  cbn [append]. intros [= E]. apply dec_inj in E. lia.
Qed.

End ShutdownAndNames.

Lemma statement_names_unique_witness :
  postgresql.get_next_statement_name 0 = (Done "st_1"%string, 1)
  /\ postgresql.get_next_statement_name 41 = (Done "st_42"%string, 42)
  /\ "st_1"%string <> "st_42"%string.
Proof.
  apply (statement_names_unique 0 41); vm_compute;
    first [discriminate | split; [discriminate | reflexivity]].
Defined.

Section CaseList.
Import postgresql.

Lemma fold_left_append_ext (f g : nat -> string) (l : list nat)
    (acc : string) :
  (forall i, In i l -> f i = g i) ->
  fold_left (fun oss i => (oss ++ f i)%string) l acc
  = fold_left (fun oss i => (oss ++ g i)%string) l acc.
Proof.
  revert acc. induction l as [|i l IH]; intros acc H; [reflexivity|].
  cbn [fold_left]. rewrite (H i) by now left.
  apply IH. intros j Hj. apply H. now right.
Qed.

(** X16: in the CASE list the k-th name is ranked k: appending a name to a list
    of n names leaves the entries of the others as they were and adds the
    new name with rank n. *)
Theorem case_list_ranks (list : list string) (s : string) :
  create_case_list_of_strings (list ++ [s])
  = (create_case_list_of_strings list
     ++ " WHEN " ++ s ++ " THEN " ++ dec (len list))%string.
Proof.
  unfold create_case_list_of_strings, len.
  rewrite length_app. cbn [List.length].
  rewrite seq_app, fold_left_app. cbn [seq fold_left Nat.add].
  rewrite app_nth2 by lia. rewrite Nat.sub_diag. cbn [nth].
  f_equal.
  apply (fold_left_append_ext
           (fun i => (" WHEN " ++ nth i (list ++ [s]) EmptyString
                      ++ " THEN " ++ dec (Z.of_nat i))%string)
           (fun i => (" WHEN " ++ nth i list EmptyString
                      ++ " THEN " ++ dec (Z.of_nat i))%string)).
  intros i Hi. apply in_seq in Hi. now rewrite app_nth1 by lia.
Qed.

End CaseList.

Section ConnectMore.
Import postgresql props.
Context {PQ : libpq} {RC : result_checks} {SK : sockets} {CI : cstrtoi_h}
        {CP : connection_parameters_h} {FILE : Type}
        {CL : client_library FILE}.

Lemma prepared_refl (w : world (FILE := FILE)) : prepared w w.
Proof. repeat split. Qed.

Lemma post_prepared (parameters : connection_parameters)
    (w w1 : world (FILE := FILE)) (res : outcome unit * world) :
  prepared w w1 -> connect_post parameters w1 res ->
  connect_post parameters w res.
Proof.
  intros (Hc & Hr & Hp & Ho & Hs). unfold connect_post, connect_failed.
  now rewrite Hc, Hr, Hp, Ho, Hs.
Qed.

Lemma post_throw (parameters : connection_parameters)
    (w w' : world (FILE := FILE)) (e : soci_error) :
  prepared w w' -> connect_post parameters w (Throw e, w').
Proof.
  intros (Hc & Hr & Hp & Ho & Hs). unfold connect_post, connect_failed.
  cbn [fst snd]. repeat split; try assumption. left. now split.
Qed.

Lemma post_bind {A} (parameters : connection_parameters)
    (c : M world A) (k : A -> M world unit) (w : world (FILE := FILE)) :
  match c w with
  | (Undefined, _) => True
  | (_, w1) => prepared w w1
  end ->
  (forall a w1, c w = (Done a, w1) -> connect_post parameters w1 (k a w1)) ->
  connect_post parameters w (bind c k w).
Proof.
  unfold bind. destruct (c w) as [[a | e |] w1]; intros Hprep Hk.
  - apply (post_prepared parameters w w1); [assumption | now apply Hk].
  - now apply post_throw.
  - exact I.
Qed.

Lemma float_digits_by_version (version : Z) :
  (if version <? 120000
   then [if version >=? 90000 then "SET extra_float_digits = 3"%string
         else "SET extra_float_digits = 2"%string]
   else [])
  = float_digits_fixup version.
Proof.
  unfold float_digits_fixup. rewrite Z.geb_leb.
  destruct (Z.ltb_spec version 120000), (Z.leb_spec 90000 version),
    (Z.ltb_spec version 90000); try reflexivity; lia.
Qed.

Ltac prep_side :=
  unfold bind, lift_outcome, set_single_row_mode, set_traceFile, ret, throw,
    with_members;
  cbv beta iota;
  repeat match goal with
         | |- context [is_true_value ?n ?v] => destruct (is_true_value n v)
         | |- context [fopen ?n ?m] => destruct (fopen n m)
         end;
  cbv beta iota; first [exact I | repeat split].

Ltac establish :=
  let conninfo := fresh "conninfo" in
  let handle := fresh "handle" in
  match goal with
  | |- context [takes_timeout ?b ?n] =>
      destruct (takes_timeout b n);
      [match goal with
       | |- context [extract_option "tcp_user_timeout" ?p] =>
           destruct (extract_option "tcp_user_timeout" p) as [? ?]
       end |]
  end;
  cbv beta iota zeta;
  unfold bind at 1; unfold note_opened;
  match goal with
  | |- context [PQconnectdb ?s] =>
      generalize s; intros conninfo;
      destruct (PQconnectdb conninfo) as [handle|]
  end;
  cbv beta iota.

Lemma connect_cases (b : build) (no_libversion : bool)
    (parameters : connection_parameters) (w : world (FILE := FILE)) :
  connect_post parameters w (connect b no_libversion parameters w).
Proof.
  unfold connect.
  apply post_bind.
  { unfold lift_outcome. destruct extract_options_from_space_separated_string;
      try exact I; apply prepared_refl. }
  intros params w1 _. clear w.
  cbv zeta.
  destruct (extract_option option_reconnect params) as [found0 params0].
  destruct (extract_option "singlerow" params0) as [found1 params1].
  assert (Hrest : forall value params2 w2,
    connect_post parameters w2
      ((let '(found, params3) := extract_option "tracefile" params2 in
        let value := match found with Some v => v | None => value end in
        match found, value with
        | Some _, String front rest =>
            let '(mode, value) :=
              if Ascii.eqb front "+" then ("a"%string, rest)
              else ("w"%string, value) in
            let file := fopen (c_string value) mode in
            set_traceFile file ;;;
            match file with
            | None =>
                throw ("Cannot open database trace file: " ++ dquote ++ value
                       ++ dquote ++ ".")%string
            | Some _ => ret tt
            end
        | _, _ => ret tt
        end ;;;
        let '(timeoutStr, params) :=
          if takes_timeout b no_libversion then
            let '(found, params) := extract_option "tcp_user_timeout" params3 in
            (match found with Some v => v | None => EmptyString end, params)
          else (EmptyString, params3) in
        let conninfo := c_string (build_string_from_options "'" params) in
        let conn := PQconnectdb conninfo in
        note_opened conninfo conn ;;;
        match conn with
        | None => throw "Cannot establish connection to the database."
        | Some conn =>
            if negb (PQstatus conn =? CONNECTION_OK) then
              fun w =>
                (Throw (mk_soci_error
                          ("Cannot establish connection to the database."
                           ++ newline ++ PQerrorMessage conn)%string),
                 finish conn w)
            else
              fun w =>
                let conn :=
                  match traceFile_ (members w) with
                  | Some f => PQtrace conn f
                  | None => conn
                  end in
                let '(r, w) :=
                  (if negb (String.eqb timeoutStr EmptyString) then
                     on_network
                       (set_tcp_user_timeout b (PQsocket conn) timeoutStr)
                   else ret tt) w in
                match r with
                | Throw e => (Throw e, finish conn w)
                | Undefined => (Undefined, w)
                | Done _ =>
                    let version := PQserverVersion conn in
                    if version <? 120000 then
                      let '(r, conn, w) :=
                        on_conn conn
                          (hard_exec
                             (if version >=? 90000
                              then "SET extra_float_digits = 3"
                              else "SET extra_float_digits = 2")
                             "Cannot set extra_float_digits parameter") w in
                      match r with
                      | Throw e => (Throw e, finish conn w)
                      | Undefined => (Undefined, w)
                      | Done _ => (Done tt, adopt conn parameters w)
                      end
                    else (Done tt, adopt conn parameters w)
                end
        end) w2)).
  { clear. intros value params2 w2.
    destruct (extract_option "tracefile" params2) as [found params3].
    cbv zeta.
    apply post_bind.
    { destruct found as [[|front rest]|]; [apply prepared_refl | |
                                           apply prepared_refl].
      destruct (Ascii.eqb front "+"); prep_side. }
    intros [] w3 _. clear w2.
    establish.
    all: match goal with
         | |- context [PQstatus ?h =? CONNECTION_OK] =>
             destruct (PQstatus h =? CONNECTION_OK) eqn:Est; cbn [negb];
             cbv beta iota
         | _ => idtac
         end.
    all: try (unfold connect_post, connect_failed, throw, finish, with_members;
         cbn; repeat split;
         first [left; split; reflexivity
               | right; do 3 eexists; split; reflexivity]).
    all: cbn [members];
      match goal with
      | |- context [match traceFile_ (members ?w) with
                    | Some f => PQtrace ?h f | None => _ end] =>
          set (c1 := match traceFile_ (members w) with
                     | Some f => PQtrace h f | None => h end)
      end;
      (destruct (negb (_ =? _)%string);
       [unfold on_network; cbn [network];
        destruct (set_tcp_user_timeout _ _ _ _) as [[[]|e|] n]
       | unfold ret]);
      cbv beta iota.
    all: try (unfold connect_post, connect_failed, throw, finish, with_members;
         cbn; first [exact I | repeat split;
         first [left; split; reflexivity
               | right; do 3 eexists; split; reflexivity]]).
    all: destruct (PQserverVersion c1 <? 120000) eqn:Ev;
      [unfold on_conn, hard_exec, bind, exec; cbn [conn sent commands];
       destruct (PQexec _ c1) as [r c2]; cbv beta iota; cbn [conn sent];
       destruct (check_for_errors r _) as [[]|e|]; cbv beta iota |].
    all: try (unfold connect_post, connect_failed, throw, finish, with_members;
         cbn; first [exact I | repeat split;
         first [left; split; reflexivity
               | right; do 3 eexists; split; reflexivity]]).
    all: unfold connect_post, adopt; cbn -[float_digits_fixup];
      do 3 eexists; repeat split; try reflexivity;
      first [apply Z.eqb_eq; exact Est
            | rewrite <- float_digits_by_version; fold c1; rewrite Ev;
              rewrite ?app_nil_r; reflexivity]. }
  destruct found1 as [v1|];
    [|destruct (extract_option "singlerows" params1) as [[v2|] params2]];
    cbv beta iota zeta.
  all: apply post_bind; [prep_side | intros [] w2 _; apply Hrest].
Qed.



End ConnectMore.



Section BlobFailures.
Import firebird.
Context {BB : blob_backend}.

(** X19: errors of the blob backend pass through [copy_from_blob] unchanged.  If
    the length cannot be obtained, [out] keeps its contents; if the read
    fails after the length is known, [out] has already been resized to that
    length and its previous contents beyond it are gone. *)
Theorem copy_from_blob_failures (st_session : session) (buf out : list byte)
    (b1 : blob) (e : soci_error) :
  sizeof_ISC_QUAD <= len buf ->
  assign (take sizeof_ISC_QUAD buf) (blob_ctor st_session) = (Done tt, b1) ->
  (forall b2, get_len b1 = (Throw e, b2) ->
   copy_from_blob st_session buf out = (Throw e, out)) /\
  (forall b2 b3 len_total,
     get_len b1 = (Done len_total, b2) ->
     read_from_start len_total b2 = (Throw e, b3) ->
     copy_from_blob st_session buf out = (Throw e, resize len_total out)).
Proof.
  intros Hbuf Hassign. apply Z.leb_le in Hbuf.
  split.
  - intros b2 Hlen.
    unfold copy_from_blob, copy_from_blob_body, bind, on_blob, on_out, ret,
      undefined.
    rewrite Hbuf. cbn [fst snd]. rewrite Hassign. cbn [fst snd].
    now rewrite Hlen.
  - intros b2 b3 len_total Hlen Hread.
    unfold copy_from_blob, copy_from_blob_body, bind, on_blob, on_out, ret,
      undefined.
    rewrite Hbuf. cbn [fst snd]. rewrite Hassign. cbn [fst snd].
    rewrite Hlen. cbn [fst snd]. now rewrite Hread.
Qed.

End BlobFailures.

Lemma copy_from_blob_failures_witness :
  firebird.copy_from_blob (BB := more_samples.unreadable_blob) 4
    (samples.canary 8) (samples.bytes "previous")
  = (Throw (mk_soci_error "Cannot read from blob."),
     samples.bytes "prev").
Proof.
  apply (proj2 (copy_from_blob_failures
                  (BB := more_samples.unreadable_blob) 4
                  (samples.canary 8) (samples.bytes "previous") 4
                  (mk_soci_error "Cannot read from blob.")
                  ltac:(vm_compute; discriminate) eq_refl) 4 4 4 eq_refl eq_refl).
Defined.
